(** * ConnectHub: client screens and the role-gated resource model

    A shallow embedding of the ConnectHub client (Expo / React Native
    screens written in TypeScript) and of the event RSVP service the
    client talks to.

    Conventions of the embedding:
    - identifiers, roles and URLs are opaque text and are modelled as
      [string]; [===] on them is [String.eqb];
    - text typed by the user ([title], [date], the chat draft) is a
      JavaScript string, i.e. a sequence of UTF-16 code units, modelled
      as [list N], because [String.prototype.trim], [length] and the
      regular expression [\d] are defined on code units;
    - [x?.f] on a possibly missing object is an [option];
    - an [async] handler is modelled as a function of the component
      state captured at the call and of the server's answer, returning
      the next state and the effects issued, in order. *)

From Stdlib Require Import ZArith NArith Ascii String.
From stdpp Require Import base gmap sets list strings.

Local Open Scope string_scope.
Local Open Scope list_scope.
Local Open Scope nat_scope.

#[local] Set Warnings "-clear-no-such-hyp".

(** ** JavaScript strings *)

Abbreviation jsstring := (list N).

(** Code units stripped by [String.prototype.trim]: the ECMAScript
    WhiteSpace and LineTerminator productions. *)
Definition isWhiteSpace (c : N) : bool :=
  ((9 <=? c) && (c <=? 13) ||
   (c =? 32) || (c =? 160) || (c =? 5760) ||
   ((8192 <=? c) && (c <=? 8202)) ||
   (c =? 8232) || (c =? 8233) || (c =? 8239) || (c =? 8287) ||
   (c =? 12288) || (c =? 65279))%N.

Fixpoint trimStart (s : jsstring) : jsstring :=
  match s with
  | c :: s' => if isWhiteSpace c then trimStart s' else s
  | [] => []
  end.

Definition trimEnd (s : jsstring) : jsstring := rev (trimStart (rev s)).

Definition trim (s : jsstring) : jsstring := trimEnd (trimStart s).

(** Truthiness of a string: the empty string is the only falsy one. *)
Definition truthy (s : jsstring) : bool :=
  match s with [] => false | _ :: _ => true end.

(** Code units of an ASCII literal. *)
Fixpoint lit (s : string) : jsstring :=
  match s with
  | EmptyString => []
  | String a s' => N_of_ascii a :: lit s'
  end.

(** [s || null] for a trimmed optional text field. *)
Definition orNull (s : jsstring) : option jsstring :=
  if truthy s then Some s else None.

(** ** JavaScript numbers *)

(** Numbers are IEEE doubles.  The integers the client meets are held
    as [Z]; every integer up to [2^53] in magnitude is a double, and
    the result of an operation on integers is the double nearest to the
    exact result, ties going to the even significand.  Between [2^e]
    and [2^(e+1)] the doubles are the multiples of [2^(e-52)]. *)
Definition nearestDouble (x : Z) : Z :=
  let a := Z.abs x in
  if (a <=? 2 ^ 53)%Z then x
  else
    let q := (2 ^ (Z.log2 a - 52))%Z in
    let k := (a / q)%Z in
    let r := (a mod q)%Z in
    let k' := if (2 * r <? q)%Z then k
              else if (q <? 2 * r)%Z then (k + 1)%Z
              else if Z.even k then k else (k + 1)%Z in
    (Z.sgn x * (k' * q))%Z.

(** Past the largest double the nearest value is an infinity. *)
Definition overflowsDouble (x : Z) : bool :=
  (2 ^ 1024 - 2 ^ 970 <=? Z.abs x)%Z.

(** ** Users and the ambient session (AuthContext) *)

Module Auth.

Record User := {
  id : string;
  email : string;
  name : string;
  role : string;
  phone : option string;
  position : option string
}.

(** [user?.role === r] and [user?.id]: [user] is [null] when nobody is
    logged in, and [undefined === r] is [false]. *)
Definition roleIs (user : option User) (r : string) : bool :=
  match user with
  | Some u => String.eqb (role u) r
  | None => false
  end.

(** [user?.id || ''] *)
Definition userIdOrEmpty (user : option User) : string :=
  match user with
  | Some u => id u
  | None => ""
  end.

End Auth.

(** ** Requests and effects shared by the screens *)

(** The answer of the HTTP client ([axios]): the promise resolves with
    [response.data] or rejects; [detail] is
    [error.response?.data?.detail]. *)
Inductive Reply (A : Type) : Type :=
  | Resolved (data : A)
  | Rejected (detail : option string).
Arguments Resolved {A} data.
Arguments Rejected {A} detail.

(** [error.response?.data?.detail || fallback] *)
Definition detailOr (detail : option string) (fallback : string) : string :=
  match detail with
  | Some "" | None => fallback
  | Some d => d
  end.

(** JSON bodies posted by the client. *)
Record EventBody := {
  body_title : jsstring;
  body_description : option jsstring;
  body_date : jsstring;
  body_time : option jsstring;
  body_location : option jsstring;
  body_max_participants : option Z
}.

Inductive Body :=
  | MessageBody (content : jsstring)
  | EventBodyOf (b : EventBody).

Inductive Api :=
  | ApiGet (url : string)
  | ApiPost (url : string) (body : Body)
  | ApiPut (url : string)
  | ApiDelete (url : string).

(** Callbacks handed to timers. *)
Inductive Callback := CbLoadMessages | CbScrollToEnd.

Inductive Effect :=
  | Request (r : Api)
  | ShowAlert (title message : string)
  | ShowAlertThen (title message button route : string)
  | ConsoleError (message : string)
  | SetInterval (cb : Callback) (ms : N)
  | ClearInterval
  | SetTimeout (cb : Callback) (ms : N)
  | RouterPush (route : string)
  | RouterReplace (route : string).

(** The requests among a list of effects, in order. *)
Fixpoint requests (es : list Effect) : list Api :=
  match es with
  | Request r :: es' => r :: requests es'
  | _ :: es' => requests es'
  | [] => []
  end.

(** [Array.prototype.includes] on an array of strings. *)
Fixpoint includes (l : list string) (x : string) : bool :=
  match l with
  | y :: l' => String.eqb y x || includes l' x
  | [] => false
  end.

(** [a?.length || 0] *)
Definition lengthOr0 {A} (a : option (list A)) : Z :=
  match a with
  | Some l => Z.of_nat (length l)
  | None => 0
  end.

(** [a?.includes(x)], read as a condition ([undefined] is falsy). *)
Definition optIncludes (a : option (list string)) (x : string) : bool :=
  match a with
  | Some l => includes l x
  | None => false
  end.

(** ** (tabs)/groups.tsx *)

Module Groups.
Import Auth.

Definition canCreateGroup (user : option User) : bool :=
  roleIs user "admin" || roleIs user "trainer".

(** The add button is rendered under [canCreateGroup] only; pressing it
    pushes the creation route. *)
Definition addButton (user : option User) : option Effect :=
  if canCreateGroup user then Some (RouterPush "/group/create") else None.

End Groups.

(** ** (tabs)/events.tsx *)

Module Events.
Import Auth.

(** [max_participants] is a JSON number; the creation screen sends the
    result of [parseInt], so it is modelled as an integer.  The arrays
    are read through [?.] and may be missing. *)
Record Event := {
  id : string;
  title : string;
  description : option string;
  date : string;
  time : option string;
  location : option string;
  attendees : option (list string);
  declined : option (list string);
  max_participants : option Z
}.

Definition getAttendanceStatus (user : option User) (event : Event) : string :=
  if optIncludes (attendees event) (userIdOrEmpty user) then "attending"
  else if optIncludes (declined event) (userIdOrEmpty user) then "declined"
  else "pending".

Definition canCreateEvent (user : option User) : bool :=
  roleIs user "admin" || roleIs user "trainer".

Definition addButton (user : option User) : option Effect :=
  if canCreateEvent user then Some (RouterPush "/event/create") else None.

(** [item.max_participants ? item.max_participants - (item.attendees?.length || 0) : null].
    The condition is a truthiness test: a missing field, [null] and the
    number [0] all take the [null] branch.  The field holds a finite
    double with an integer value, and the subtraction is the one of
    doubles: the double nearest to the exact difference. *)
Definition spotsLeft (item : Event) : option Z :=
  match max_participants item with
  | Some m =>
      if (m =? 0)%Z then None
      else Some (nearestDouble (m - lengthOr0 (attendees item)))
  | None => None
  end.

End Events.

(** ** event/[id].tsx *)

Module EventDetail.
Import Auth.

Record Event := {
  id : string;
  title : string;
  description : option string;
  date : string;
  time : option string;
  location : option string;
  attendees : option (list string);
  declined : option (list string);
  max_participants : option Z;
  created_by : string
}.

Definition isAttending (user : option User) (event : Event) : bool :=
  optIncludes (attendees event) (userIdOrEmpty user).

Definition isDeclined (user : option User) (event : Event) : bool :=
  optIncludes (declined event) (userIdOrEmpty user).

Definition canEdit (user : option User) : bool :=
  roleIs user "admin" || roleIs user "trainer".

Definition spotsLeft (event : Event) : option Z :=
  match max_participants event with
  | Some m =>
      if (m =? 0)%Z then None
      else Some (nearestDouble (m - lengthOr0 (attendees event)))
  | None => None
  end.

End EventDetail.

(** ** The notifications screen *)

Module Notifications.

Record Notification := {
  id : string;
  type : string;
  message : string;
  read : bool;
  created_at : string;
  group_id : option string;
  event_id : option string
}.

(** [{ ...n, read: true }] *)
Definition withRead (n : Notification) : Notification :=
  {| id := id n; type := type n; message := message n; read := true;
     created_at := created_at n; group_id := group_id n;
     event_id := event_id n |}.

(** [markAsRead]: the list is replaced only after the request has
    resolved; a rejected request is logged and the list is kept. *)
Definition markAsRead (i : string) (notifications : list Notification)
    (reply : Reply unit) : list Notification * list Effect :=
  let req := Request (ApiPut ("/api/notifications/" +:+ i +:+ "/read")) in
  match reply with
  | Resolved _ =>
      (map (fun n => if String.eqb (id n) i then withRead n else n) notifications,
       [req])
  | Rejected _ => (notifications, [req; ConsoleError "Error marking as read:"])
  end.

Definition markAllAsRead (notifications : list Notification)
    (reply : Reply unit) : list Notification * list Effect :=
  let req := Request (ApiPut "/api/notifications/read-all") in
  match reply with
  | Resolved _ => (map withRead notifications, [req])
  | Rejected _ => (notifications, [req; ConsoleError "Error marking all as read:"])
  end.

(** [notifications.filter((n) => !n.read).length] *)
Definition unreadCount (notifications : list Notification) : nat :=
  length (List.filter (fun n => negb (read n)) notifications).

(** The "mark all" button is rendered while [unreadCount > 0]. *)
Definition markAllButton (notifications : list Notification) : bool :=
  (0 <? unreadCount notifications)%nat.

End Notifications.

(** ** admin/members.tsx *)

Module Members.
Import Auth.

Record AlertButton := {
  text : string;
  style : option string;
  onPress : Reply unit -> list Effect
}.

Record AlertDialog := {
  alertTitle : string;
  alertMessage : string;
  buttons : list AlertButton
}.

(** [c.toUpperCase()] on an ASCII letter. *)
Definition upcase (c : ascii) : ascii :=
  let n := nat_of_ascii c in
  if ((97 <=? n) && (n <=? 122))%nat then ascii_of_nat (n - 32) else c.

(** [role.charAt(0).toUpperCase() + role.slice(1)] *)
Definition capitalize (s : string) : string :=
  match s with
  | String c s' => String (upcase c) s'
  | EmptyString => EmptyString
  end.

Definition roles : list string := ["admin"; "trainer"; "mitglied"; "gast"].

Definition roleUrl (memberId r : string) : string :=
  "/api/users/" +:+ memberId +:+ "/role?role=" +:+ r.

(** One button of the role dialog: the request, then a reload of the
    member list, or an alert when the request was rejected. *)
Definition roleButton (member : User) (r : string) : AlertButton :=
  {| text := capitalize r;
     style := None;
     onPress := fun reply =>
       match reply with
       | Resolved _ =>
           [Request (ApiPut (roleUrl (id member) r)); Request (ApiGet "/api/users")]
       | Rejected d =>
           [Request (ApiPut (roleUrl (id member) r));
            ShowAlert "Fehler" (detailOr d "Rolle konnte nicht geändert werden")]
       end |}.

(** [changeRole] does not read the current user: it builds the dialog
    for whichever member it is given. *)
Definition changeRole (member : User) : AlertDialog :=
  {| alertTitle := "Rolle ändern";
     alertMessage := "Aktuelle Rolle: " +:+ role member;
     buttons := map (roleButton member) roles ++
                [{| text := "Abbrechen"; style := Some "cancel";
                    onPress := fun _ => [] |}] |}.

(** What [renderMember] gives the list row: the [disabled] prop and the
    [onPress] handler [() => !isCurrentUser && changeRole(item)]. *)
Record MemberRow := {
  disabled : bool;
  rowOnPress : option AlertDialog
}.

Definition isCurrentUser (user : option User) (item : User) : bool :=
  match user with
  | Some u => String.eqb (id item) (id u)
  | None => false
  end.

Definition renderMember (user : option User) (item : User) : MemberRow :=
  {| disabled := isCurrentUser user item;
     rowOnPress := if negb (isCurrentUser user item)
                   then Some (changeRole item) else None |}.

(** A touchable that is [disabled] ignores presses; otherwise the press
    runs [onPress]. *)
Definition press (row : MemberRow) : option AlertDialog :=
  if disabled row then None else rowOnPress row.

(** Requests that a tap on the row of [item], followed by a tap on any
    button of the dialog it opens, can issue. *)
Definition rowRequests (user : option User) (item : User)
    (reply : Reply unit) : list Api :=
  match press (renderMember user item) with
  | Some dlg => flat_map (fun b => requests (onPress b reply)) (buttons dlg)
  | None => []
  end.

End Members.

(** ** group/[id].tsx: the group chat *)

Module GroupChat.

Record Message := {
  id : string;
  content : string;
  sender_id : string;
  sender_name : string;
  created_at : string
}.

Record Group := {
  group_id : string;
  group_name : string;
  members : option (list string)
}.

(** The [useState] cells of the component. *)
Record State := {
  group : option Group;
  messages : list Message;
  newMessage : jsstring;
  loading : bool;
  sending : bool
}.

Definition initial : State :=
  {| group := None; messages := []; newMessage := []; loading := true;
     sending := false |}.

Definition groupUrl (gid : string) : string := "/api/groups/" +:+ gid.
Definition messagesUrl (gid : string) : string :=
  "/api/groups/" +:+ gid +:+ "/messages".

(** [useEffect]: [loadData()] starts the two initial fetches, then the
    poll is registered; the cleanup clears it. *)
Definition mount (gid : string) : list Effect :=
  [Request (ApiGet (groupUrl gid)); Request (ApiGet (messagesUrl gid));
   SetInterval CbLoadMessages 5000].

Definition unmount : list Effect := [ClearInterval].

(** [loadData]: the answer to the two initial fetches ([Promise.all]);
    the requests themselves are listed in [mount]. *)
Definition loadData (st : State) (reply : Reply (Group * list Message))
    : State * list Effect :=
  match reply with
  | Resolved (g, ms) =>
      ({| group := Some g; messages := ms; newMessage := newMessage st;
          loading := false; sending := sending st |}, [])
  | Rejected _ =>
      ({| group := group st; messages := messages st;
          newMessage := newMessage st; loading := false;
          sending := sending st |},
       [ConsoleError "Error loading group:";
        ShowAlert "Fehler" "Gruppe konnte nicht geladen werden"])
  end.

Definition loadMessages (gid : string) (st : State)
    (reply : Reply (list Message)) : State * list Effect :=
  let req := Request (ApiGet (messagesUrl gid)) in
  match reply with
  | Resolved ms =>
      ({| group := group st; messages := ms; newMessage := newMessage st;
          loading := loading st; sending := sending st |}, [req])
  | Rejected _ => (st, [req; ConsoleError "Error loading messages:"])
  end.

(** [sendMessage]: [sending] is raised during the request and lowered in
    [finally]; the state returned is the one after the handler has
    finished. *)
Definition sendMessage (gid : string) (st : State)
    (reply : Reply Message) : State * list Effect :=
  if negb (truthy (trim (newMessage st))) then (st, [])
  else
    let req := Request (ApiPost (messagesUrl gid)
                                (MessageBody (trim (newMessage st)))) in
    match reply with
    | Resolved m =>
        ({| group := group st; messages := messages st ++ [m];
            newMessage := []; loading := loading st; sending := false |},
         [req; SetTimeout CbScrollToEnd 100])
    | Rejected d =>
        ({| group := group st; messages := messages st;
            newMessage := newMessage st; loading := loading st;
            sending := false |},
         [req; ShowAlert "Fehler"
                 (detailOr d "Nachricht konnte nicht gesendet werden")])
    end.

(** Props of the draft [TextInput] and of the send button. *)
Record TextInputProps := {
  value : jsstring;
  placeholder : string;
  multiline : bool;
  maxLength : option nat
}.

Definition chatInput (st : State) : TextInputProps :=
  {| value := newMessage st; placeholder := "Nachricht schreiben...";
     multiline := true; maxLength := Some 1000 |}.

Definition sendDisabled (st : State) : bool :=
  negb (truthy (trim (newMessage st))) || sending st.

(** What can happen to the mounted screen.  [edit] stands for the native
    text field: given the [maxLength] prop and the text the user
    produced, it yields the text handed to [onChangeText]. *)
Inductive ChatEvent :=
  | EvChangeText (typed : jsstring)
  | EvPressSend (reply : Reply Message)
  | EvTick (reply : Reply (list Message)).

Definition step (edit : option nat -> jsstring -> jsstring) (gid : string)
    (st : State) (ev : ChatEvent) : State * list Effect :=
  match ev with
  | EvChangeText typed =>
      ({| group := group st; messages := messages st;
          newMessage := edit (maxLength (chatInput st)) typed;
          loading := loading st; sending := sending st |}, [])
  | EvPressSend reply =>
      if sendDisabled st then (st, []) else sendMessage gid st reply
  | EvTick reply => loadMessages gid st reply
  end.

Fixpoint run (edit : option nat -> jsstring -> jsstring) (gid : string)
    (st : State) (evs : list ChatEvent) : State * list Effect :=
  match evs with
  | [] => (st, [])
  | ev :: evs' =>
      let '(st1, es1) := step edit gid st ev in
      let '(st2, es2) := run edit gid st1 evs' in
      (st2, es1 ++ es2)
  end.

(** The interval registered by a list of effects. *)
Fixpoint intervals (es : list Effect) : list (Callback * N) :=
  match es with
  | SetInterval cb ms :: es' => (cb, ms) :: intervals es'
  | _ :: es' => intervals es'
  | [] => []
  end.

(** Virtual-time trace of an interval registered at [t0] with period
    [ms]: the [k]-th firing is due at [t0 + k * ms], and each firing
    runs [loadMessages] against the state left by the previous one. *)
Fixpoint pollTrace (gid : string) (ms t0 : N) (st : State)
    (replies : list (Reply (list Message))) : State * list (N * list Effect) :=
  match replies with
  | [] => (st, [])
  | r :: replies' =>
      let '(st1, es) := loadMessages gid st r in
      let '(st2, tr) := pollTrace gid ms (t0 + ms) st1 replies' in
      (st2, ((t0 + ms)%N, es) :: tr)
  end.

(** The polls of a mounted screen: driven by the interval that [mount]
    registers. *)
Definition polling (gid : string) (t0 : N) (st : State)
    (replies : list (Reply (list Message))) : State * list (N * list Effect) :=
  match intervals (mount gid) with
  | (CbLoadMessages, ms) :: _ => pollTrace gid ms t0 st replies
  | _ => (st, [])
  end.

End GroupChat.

(** ** The event creation screen *)

Module CreateEvent.

(** Regular expressions of the shape [^a1 a2 ... an$] without flags,
    each atom matching exactly one code unit. *)
Inductive Atom :=
  | Digit                (* \d : 0-9 *)
  | Char (c : N).

Definition atomMatches (a : Atom) (c : N) : bool :=
  match a with
  | Digit => ((48 <=? c) && (c <=? 57))%N
  | Char d => (c =? d)%N
  end.

(** [regex.test(s)] for an anchored pattern: the whole string has to be
    consumed ([$] without the [m] flag matches at the end of input only). *)
Fixpoint test (regex : list Atom) (s : jsstring) : bool :=
  match regex, s with
  | [], [] => true
  | a :: regex', c :: s' => atomMatches a c && test regex' s'
  | _, _ => false
  end.

(** [/^\d{4}-\d{2}-\d{2}$/]; 45 is the hyphen. *)
Definition dateRegex : list Atom :=
  [Digit; Digit; Digit; Digit; Char 45; Digit; Digit; Char 45; Digit; Digit].

(** [parseInt(s)] without a radix: leading white space, a sign, an
    optional [0x] prefix, then the longest prefix of digits.  The
    integer they write is turned into the nearest double.  [None]
    stands for a result that is not a finite number: [NaN] when there
    is no digit, an infinity when the integer is past the largest
    double; [JSON.stringify] writes both as [null].  (Past twenty
    significant digits an engine may read the further digits as zeros;
    that latitude is not modelled.) *)
Definition digitValue (radix c : N) : option N :=
  let v := (if (48 <=? c) && (c <=? 57) then Some (c - 48)
            else if (97 <=? c) && (c <=? 122) then Some (c - 87)
            else if (65 <=? c) && (c <=? 90) then Some (c - 55)
            else None)%N in
  match v with
  | Some d => if (d <? radix)%N then Some d else None
  | None => None
  end.

Fixpoint digitsPrefix (radix : N) (acc : option N) (s : jsstring) : option N :=
  match s with
  | c :: s' =>
      match digitValue radix c with
      | Some d => digitsPrefix radix (Some (radix * default 0 acc + d)%N) s'
      | None => acc
      end
  | [] => acc
  end.

Definition stripSign (s : jsstring) : bool * jsstring :=
  match s with
  | c :: s' => if (c =? 45)%N then (true, s')
               else if (c =? 43)%N then (false, s') else (false, s)
  | [] => (false, [])
  end.

Definition stripHexPrefix (s : jsstring) : N * jsstring :=
  match s with
  | c :: x :: s' =>
      if ((c =? 48) && ((x =? 120) || (x =? 88)))%N then (16%N, s') else (10%N, s)
  | _ => (10%N, s)
  end.

Definition parseInt (s : jsstring) : option Z :=
  let '(neg, s1) := stripSign (trimStart s) in
  let '(radix, s2) := stripHexPrefix s1 in
  match digitsPrefix radix None s2 with
  | Some n =>
      let v := (if neg then - Z.of_N n else Z.of_N n)%Z in
      if overflowsDouble v then None else Some (nearestDouble v)
  | None => None
  end.

Record State := {
  title : jsstring;
  description : jsstring;
  date : jsstring;
  time : jsstring;
  location : jsstring;
  maxParticipants : jsstring;
  loading : bool
}.

(** The body of [POST /api/events].  A [NaN] from [parseInt] is
    serialised as [null]. *)
Definition eventBody (st : State) : EventBody :=
  {| body_title := trim (title st);
     body_description := orNull (trim (description st));
     body_date := trim (date st);
     body_time := orNull (trim (time st));
     body_location := orNull (trim (location st));
     body_max_participants :=
       if truthy (maxParticipants st) then parseInt (maxParticipants st)
       else None |}.

Definition finished (st : State) : State :=
  {| title := title st; description := description st; date := date st;
     time := time st; location := location st;
     maxParticipants := maxParticipants st; loading := false |}.

(** [handleCreate]; [reply] carries [response.data.id]. *)
Definition handleCreate (st : State) (reply : Reply string)
    : State * list Effect :=
  if negb (truthy (trim (title st))) then
    (st, [ShowAlert "Fehler" "Bitte gib einen Titel ein"])
  else if negb (truthy (trim (date st))) then
    (st, [ShowAlert "Fehler" "Bitte gib ein Datum ein (Format: JJJJ-MM-TT)"])
  else if negb (test dateRegex (date st)) then
    (st, [ShowAlert "Fehler"
            "Ungültiges Datumsformat. Bitte verwende JJJJ-MM-TT"])
  else
    let req := Request (ApiPost "/api/events" (EventBodyOf (eventBody st))) in
    match reply with
    | Resolved i =>
        (finished st,
         [req; ShowAlertThen "Erfolg" "Termin erstellt" "OK" ("/event/" +:+ i)])
    | Rejected d =>
        (finished st,
         [req; ShowAlert "Fehler"
                 (detailOr d "Termin konnte nicht erstellt werden")])
    end.

End CreateEvent.

(** ** The event RSVP service *)

Module EventService.

Abbreviation UserId := string.

Inductive Error :=
  | Unauthenticated | Forbidden | NotFound | Conflict | Capacity | Validation.

(** Modelled from the spec: the server's event record is not part of the
    client sources; section 3 gives an event an optional
    [maxParticipants] and two sets of user ids, [attendees] and
    [declined]. *)
Record Event := {
  maxParticipants : option nat;
  attendees : gset UserId;
  declined : gset UserId
}.

(** Modelled from the spec: a newly created event has nobody in either
    set. *)
Definition create (limit : option nat) : Event :=
  {| maxParticipants := limit; attendees := ∅; declined := ∅ |}.

(** Modelled from the spec: the server's [attend] is not part of the
    client sources.  Section 4.2: if [maxParticipants] is set, the
    current attendee count is at least the limit and [userId] is not
    already attending, the call fails with [Capacity]; otherwise
    [userId] is moved into [attendees] and removed from [declined]. *)
Definition attend (u : UserId) (e : Event) : Error + Event :=
  let accepted :=
    {| maxParticipants := maxParticipants e;
       attendees := {[u]} ∪ attendees e;
       declined := declined e ∖ {[u]} |} in
  match maxParticipants e with
  | Some limit =>
      if bool_decide (limit ≤ size (attendees e)) && bool_decide (u ∉ attendees e)
      then inl Capacity
      else inr accepted
  | None => inr accepted
  end.

(** Modelled from the spec: the server's [decline] is not part of the
    client sources.  Section 4.2 calls it the mirror operation:
    [userId] is moved into [declined] and removed from [attendees];
    declining is not limited. *)
Definition decline (u : UserId) (e : Event) : Error + Event :=
  inr {| maxParticipants := maxParticipants e;
         attendees := attendees e ∖ {[u]};
         declined := {[u]} ∪ declined e |}.

(** The invariant of section 3: nobody is in both sets. *)
Definition exclusive (e : Event) : Prop := attendees e ## declined e.

Inductive Call :=
  | Attend (u : UserId)
  | Decline (u : UserId).

Definition perform (c : Call) (e : Event) : Error + Event :=
  match c with
  | Attend u => attend u e
  | Decline u => decline u e
  end.

(** Modelled from the spec: a failed call leaves the stored event as it
    was (errors are returned, nothing is written). *)
Definition stored (e : Event) (r : Error + Event) : Event :=
  match r with
  | inr e' => e'
  | inl _ => e
  end.

(** The stored event after a sequence of calls, failed ones included. *)
Fixpoint after (cs : list Call) (e : Event) : Event :=
  match cs with
  | [] => e
  | c :: cs' => after cs' (stored e (perform c e))
  end.

(** A sequence of [attend] calls that all have to succeed. *)
Fixpoint attendAll (us : list UserId) (e : Event) : Error + Event :=
  match us with
  | [] => inr e
  | u :: us' =>
      match attend u e with
      | inr e' => attendAll us' e'
      | inl err => inl err
      end
  end.

End EventService.

(** ** Sample data *)

Module Samples.

Definition guest : Auth.User :=
  {| Auth.id := "u7"; Auth.email := "gerda@verein.example";
     Auth.name := "Gerda"; Auth.role := "gast";
     Auth.phone := None; Auth.position := None |}.

Definition admin : Auth.User :=
  {| Auth.id := "u1"; Auth.email := "vorstand@verein.example";
     Auth.name := "Vera"; Auth.role := "admin";
     Auth.phone := None; Auth.position := Some "Vorstand" |}.

(** A chat whose draft is two spaces and a tab. *)
Definition blankDraft : GroupChat.State :=
  {| GroupChat.group := None; GroupChat.messages := [];
     GroupChat.newMessage := [32; 32; 9]%N;
     GroupChat.loading := false; GroupChat.sending := false |}.

(** A text field that cuts what it is given down to [maxLength]. *)
Definition truncating (limit : option nat) (typed : jsstring) : jsstring :=
  match limit with
  | Some n => take n typed
  | None => typed
  end.

Definition hello : GroupChat.Message :=
  {| GroupChat.id := "m1"; GroupChat.content := "hi";
     GroupChat.sender_id := "u1"; GroupChat.sender_name := "Vera";
     GroupChat.created_at := "2025-07-01T18:00:00" |}.

(** A creation form with a title and the date typed with slashes. *)
Definition slashDate : CreateEvent.State :=
  {| CreateEvent.title := lit "Training";
     CreateEvent.description := [];
     CreateEvent.date := lit "2025/07/15";
     CreateEvent.time := lit "18:00";
     CreateEvent.location := [];
     CreateEvent.maxParticipants := lit "20";
     CreateEvent.loading := false |}.

Definition goodForm : CreateEvent.State :=
  {| CreateEvent.title := lit " Training ";
     CreateEvent.description := [];
     CreateEvent.date := lit "2025-07-15";
     CreateEvent.time := lit "18:00";
     CreateEvent.location := [];
     CreateEvent.maxParticipants := lit "20";
     CreateEvent.loading := false |}.

Definition note (i : string) (r : bool) : Notifications.Notification :=
  {| Notifications.id := i; Notifications.type := "new_message";
     Notifications.message := "Neue Nachricht"; Notifications.read := r;
     Notifications.created_at := "2025-07-01T18:00:00";
     Notifications.group_id := Some "g1"; Notifications.event_id := None |}.

Definition inbox : list Notifications.Notification :=
  [note "n1" false; note "n2" true; note "n3" false].

Definition listed (limit : option Z) (who : list string) : Events.Event :=
  {| Events.id := "e1"; Events.title := "Training";
     Events.description := None; Events.date := "2025-07-15";
     Events.time := None; Events.location := None;
     Events.attendees := Some who; Events.declined := Some [];
     Events.max_participants := limit |}.

Definition detailed (limit : option Z) (who : list string) : EventDetail.Event :=
  {| EventDetail.id := "e1"; EventDetail.title := "Training";
     EventDetail.description := None; EventDetail.date := "2025-07-15";
     EventDetail.time := None; EventDetail.location := None;
     EventDetail.attendees := Some who; EventDetail.declined := Some [];
     EventDetail.max_participants := limit;
     EventDetail.created_by := "u1" |}.

(** An event limited to two, after anna and ben have accepted. *)
Definition fullEvent : EventService.Event :=
  {| EventService.maxParticipants := Some 2;
     EventService.attendees := {["ben"]} ∪ ({["anna"]} ∪ ∅);
     EventService.declined := (∅ ∖ {["anna"]}) ∖ {["ben"]} |}.

End Samples.

(** ** More of the runtime *)

(** [s.startsWith(needle)] and [s.includes(needle)] on strings. *)
Fixpoint startsWith (s needle : string) : bool :=
  match needle, s with
  | EmptyString, _ => true
  | String a needle', String b s' => Ascii.eqb a b && startsWith s' needle'
  | String _ _, EmptyString => false
  end.

Fixpoint strIncludes (s needle : string) : bool :=
  startsWith s needle ||
  match s with
  | String _ s' => strIncludes s' needle
  | EmptyString => false
  end.

(** The double quote, as a one-character string. *)
Definition dquote : string := String (ascii_of_nat 34) EmptyString.

(** Truthiness of an optional string field: missing, [null] and the
    empty string are falsy. *)
Definition truthyField (o : option string) : bool :=
  match o with
  | Some "" | None => false
  | Some _ => true
  end.

(** Reading [obj[key]] on an object literal: an own property, else a
    property inherited from [Object.prototype] (a function or an
    object, hence truthy), else [undefined].  [inherited] tells which
    names the prototype provides. *)
Inductive Lookup (A : Type) : Type :=
  | Own (v : A)
  | Inherited
  | Undefined.
Arguments Own {A} v.
Arguments Inherited {A}.
Arguments Undefined {A}.

Fixpoint ownProperty {A} (obj : list (string * A)) (key : string) : option A :=
  match obj with
  | (k, v) :: obj' => if String.eqb k key then Some v else ownProperty obj' key
  | [] => None
  end.

Definition getProperty {A} (inherited : string -> bool)
    (obj : list (string * A)) (key : string) : Lookup A :=
  match ownProperty obj key with
  | Some v => Own v
  | None => if inherited key then Inherited else Undefined
  end.

(** [obj[key] || fallback], every own value of [obj] being truthy. *)
Definition getPropertyOr {A} (inherited : string -> bool)
    (obj : list (string * A)) (key : string) (fallback : A) : Lookup A :=
  match getProperty inherited obj key with
  | Undefined => Own fallback
  | found => found
  end.

(** ** The notifications screen: pressing a row *)

Module Inbox.
Import Notifications.

(** Where a press on the row leads: the group when [group_id] is
    truthy, else the event when [event_id] is truthy, else nowhere. *)
Definition destination (notification : Notification) : list Effect :=
  if truthyField (group_id notification) then
    [RouterPush ("/group/" +:+ default "" (group_id notification))]
  else if truthyField (event_id notification) then
    [RouterPush ("/event/" +:+ default "" (event_id notification))]
  else [].

(** [handleNotificationPress]: [markAsRead] is started and not awaited,
    so its request goes out first, the navigation follows at once, and
    whatever [markAsRead] does on the answer comes after. *)
Definition handleNotificationPress (notification : Notification)
    (notifications : list Notification) (reply : Reply unit)
    : list Notification * list Effect :=
  let '(notifications', es) := markAsRead (id notification) notifications reply in
  (notifications', take 1 es ++ destination notification ++ drop 1 es).

(** The list after a resolved [markAsRead], and after a resolved
    [markAllAsRead]. *)
Definition marked (i : string) (ns : list Notification) : list Notification :=
  (markAsRead i ns (Resolved ())).1.

Definition allMarked (ns : list Notification) : list Notification :=
  (markAllAsRead ns (Resolved ())).1.

Record Icon := { icon_name : string; icon_color : string }.

Definition getNotificationIcon (type : string) : Icon :=
  if String.eqb type "new_message" then
    {| icon_name := "chatbubble"; icon_color := "#3B82F6" |}
  else if String.eqb type "new_event" then
    {| icon_name := "calendar"; icon_color := "#F59E0B" |}
  else if String.eqb type "group_added" then
    {| icon_name := "people"; icon_color := "#10B981" |}
  else {| icon_name := "notifications"; icon_color := "#64748B" |}.

End Inbox.

(** ** admin/members.tsx: the counters above the list *)

Module MemberStats.
Import Auth.

(** [members.filter((m) => m.role === r).length] *)
Definition countRole (r : string) (members : list User) : nat :=
  length (List.filter (fun m => String.eqb (role m) r) members).

Definition total (members : list User) : nat := length members.
Definition admins (members : list User) : nat := countRole "admin" members.
Definition trainers (members : list User) : nat := countRole "trainer" members.

End MemberStats.

(** ** group/[id].tsx: rendering a message *)

Module ChatView.
Import GroupChat.

(** [item.sender_id === user?.id] *)
Definition isOwn (user : option Auth.User) (item : Message) : bool :=
  match user with
  | Some u => String.eqb (sender_id item) (Auth.id u)
  | None => false
  end.

(** [showDate] of [renderMessage].  [formatMessageDate] wraps the date
    library in [try]/[catch] and so answers for every argument, also for
    the [undefined] of a missing predecessor; it is a parameter here. *)
Definition showDate (formatMessageDate : option string -> string)
    (messages : list Message) (index : nat) (item : Message) : bool :=
  (index =? 0) ||
  negb (String.eqb
          (formatMessageDate (Some (created_at item)))
          (formatMessageDate (created_at <$> messages !! (index - 1)))).

End ChatView.

(** ** (tabs)/index.tsx: the dashboard *)

Module Dashboard.

(** The icon of a notification card on the dashboard. *)
Definition notificationIconName (type : string) : string :=
  if String.eqb type "new_message" then "chatbubble"
  else if String.eqb type "new_event" then "calendar"
  else "notifications".

(** [list && list.length > 0 ? list.slice(0, 3).map(...) : <empty state>]:
    the cards shown, [None] standing for the empty state. *)
Definition shown {A} (l : option (list A)) : option (list A) :=
  match l with
  | Some (x :: l') => Some (take 3 (x :: l'))
  | _ => None
  end.

(** [(data?.unread_notifications || 0) > 0] *)
Definition showBadge (unread_notifications : option Z) : bool :=
  (0 <? default 0 unread_notifications)%Z.

End Dashboard.

(** ** The documents screen *)

Module Documents.
Import Auth.

Record Document := {
  id : string;
  name : string;
  file_type : string;
  uploaded_by : string;
  uploader_name : string;
  created_at : string;
  group_id : option string
}.

Definition getFileIcon (fileType : string) : Inbox.Icon :=
  if strIncludes fileType "pdf" then
    {| Inbox.icon_name := "document-text"; Inbox.icon_color := "#EF4444" |}
  else if strIncludes fileType "image" then
    {| Inbox.icon_name := "image"; Inbox.icon_color := "#10B981" |}
  else if strIncludes fileType "word" || strIncludes fileType "doc" then
    {| Inbox.icon_name := "document"; Inbox.icon_color := "#3B82F6" |}
  else if strIncludes fileType "excel" || strIncludes fileType "sheet" then
    {| Inbox.icon_name := "grid"; Inbox.icon_color := "#10B981" |}
  else {| Inbox.icon_name := "document-attach"; Inbox.icon_color := "#64748B" |}.

Definition canManage (user : option User) : bool :=
  roleIs user "admin" || roleIs user "trainer".

(** [deleteDocument]: the confirmation dialog.  Confirming sends the
    delete and reloads the list, or alerts when the delete was
    rejected. *)
Definition deleteDocument (doc : Document) : Members.AlertDialog :=
  {| Members.alertTitle := "Dokument löschen";
     Members.alertMessage :=
       "Möchtest du " +:+ dquote +:+ name doc +:+ dquote +:+ " wirklich löschen?";
     Members.buttons :=
       [{| Members.text := "Abbrechen"; Members.style := Some "cancel";
           Members.onPress := fun _ => [] |};
        {| Members.text := "Löschen"; Members.style := Some "destructive";
           Members.onPress := fun reply =>
             match reply with
             | Resolved _ =>
                 [Request (ApiDelete ("/api/documents/" +:+ id doc));
                  Request (ApiGet "/api/documents")]
             | Rejected _ =>
                 [Request (ApiDelete ("/api/documents/" +:+ id doc));
                  ShowAlert "Fehler" "Dokument konnte nicht gelöscht werden"]
             end |}] |}.

(** The trash button of a row exists under [canManage] only. *)
Definition rowDelete (user : option User) (item : Document)
    : option Members.AlertDialog :=
  if canManage user then Some (deleteDocument item) else None.

End Documents.

(** ** AuthContext: the session and its persistence *)

Module Session.

Section WithUser.

(** The provider keeps the user object as the server sent it.  [U] is
    that object and [P] a partial one; [stringify] and [parse] stand for
    [JSON.stringify] and [JSON.parse] ([None]: the parse throws), and
    [merge] for the spread [{ ...user, ...data }]. *)
Variables U P : Type.
Variable stringify : U -> string.
Variable parse : string -> option U.
Variable merge : U -> P -> U.

(** The [useState] cells, the device's [AsyncStorage] and the default
    [Authorization] header of the HTTP client.  Storage writes are taken
    to succeed. *)
Record State := {
  user : option U;
  token : option string;
  isLoading : bool;
  storage : gmap string string;
  authorization : option string
}.

(** The provider as it is mounted on a device holding [store]. *)
Definition initial (store : gmap string string) : State :=
  {| user := None; token := None; isLoading := true; storage := store;
     authorization := None |}.

(** [loadStoredAuth]: both items have to be truthy.  [setToken] runs
    before [JSON.parse]; when the parse throws, the [catch] logs and
    neither the user nor the header is set. *)
Definition loadStoredAuth (st : State) : State :=
  if truthyField (storage st !! "token") && truthyField (storage st !! "user") then
    match parse (default "" (storage st !! "user")) with
    | Some u =>
        {| user := Some u; token := storage st !! "token"; isLoading := false;
           storage := storage st;
           authorization := Some ("Bearer " +:+ default "" (storage st !! "token")) |}
    | None =>
        {| user := user st; token := storage st !! "token"; isLoading := false;
           storage := storage st; authorization := authorization st |}
    end
  else
    {| user := user st; token := token st; isLoading := false;
       storage := storage st; authorization := authorization st |}.

(** [login]; [reply] carries [{ token, user }].  A rejected request
    throws to the caller before anything is touched. *)
Definition login (st : State) (reply : Reply (string * U)) : State :=
  match reply with
  | Resolved (newToken, newUser) =>
      {| user := Some newUser; token := Some newToken; isLoading := isLoading st;
         storage := <["user" := stringify newUser]> (<["token" := newToken]> (storage st));
         authorization := Some ("Bearer " +:+ newToken) |}
  | Rejected _ => st
  end.

(** [register] differs from [login] in the endpoint only. *)
Definition register (st : State) (reply : Reply (string * U)) : State :=
  match reply with
  | Resolved (newToken, newUser) =>
      {| user := Some newUser; token := Some newToken; isLoading := isLoading st;
         storage := <["user" := stringify newUser]> (<["token" := newToken]> (storage st));
         authorization := Some ("Bearer " +:+ newToken) |}
  | Rejected _ => st
  end.

Definition logout (st : State) : State :=
  {| user := None; token := None; isLoading := isLoading st;
     storage := delete "user" (delete "token" (storage st));
     authorization := None |}.

Definition updateUser (st : State) (data : P) : State :=
  match user st with
  | Some u =>
      {| user := Some (merge u data); token := token st; isLoading := isLoading st;
         storage := <["user" := stringify (merge u data)]> (storage st);
         authorization := authorization st |}
  | None => st
  end.

(** The app is closed and opened again: memory and the HTTP client start
    afresh, the storage is the device's, and the mount effect runs
    [loadStoredAuth]. *)
Definition restart (st : State) : State :=
  loadStoredAuth (initial (storage st)).

Inductive Op :=
  | OpLogin (reply : Reply (string * U))
  | OpRegister (reply : Reply (string * U))
  | OpLogout
  | OpUpdateUser (data : P)
  | OpRestart.

Definition apply (st : State) (op : Op) : State :=
  match op with
  | OpLogin reply => login st reply
  | OpRegister reply => register st reply
  | OpLogout => logout st
  | OpUpdateUser data => updateUser st data
  | OpRestart => restart st
  end.

Definition run (st : State) (ops : list Op) : State := foldl apply st ops.

(** What the session keeps true: the header is the bearer of the token,
    token and user come together, both are what the storage holds, and
    the stored user is something [stringify] wrote. *)
Definition coherent (st : State) : Prop :=
  authorization st = (fun t => "Bearer " +:+ t) <$> token st ∧
  (is_Some (token st) ↔ is_Some (user st)) ∧
  (∀ t, token st = Some t → storage st !! "token" = Some t) ∧
  (∀ u, user st = Some u → storage st !! "user" = Some (stringify u)) ∧
  (∀ s, storage st !! "user" = Some s → ∃ u, s = stringify u).

End WithUser.

Arguments user {U} _.
Arguments token {U} _.
Arguments isLoading {U} _.
Arguments storage {U} _.
Arguments authorization {U} _.
Arguments initial {U} store.
Arguments loadStoredAuth {U} parse st.
Arguments login {U} stringify st reply.
Arguments register {U} stringify st reply.
Arguments logout {U} st.
Arguments updateUser {U P} stringify merge st data.
Arguments restart {U} parse st.
Arguments OpLogin {U P} reply.
Arguments OpRegister {U P} reply.
Arguments OpLogout {U P}.
Arguments OpUpdateUser {U P} data.
Arguments OpRestart {U P}.
Arguments apply {U P} stringify parse merge st op.
Arguments run {U P} stringify parse merge st ops.
Arguments coherent {U} stringify st.

End Session.

(** ** (tabs)/groups.tsx: icon and colour of a group type *)

Module GroupList.

Definition icons : list (string * string) :=
  [("vorstand", "shield"); ("mitglieder", "people"); ("team", "football");
   ("projekt", "construct"); ("events", "calendar");
   ("allgemein", "chatbubbles")].

Definition getTypeIcon (inherited : string -> bool) (type : string) : Lookup string :=
  getPropertyOr inherited icons type "chatbubbles".

Definition colors : list (string * string) :=
  [("vorstand", "#EF4444"); ("mitglieder", "#3B82F6"); ("team", "#10B981");
   ("projekt", "#F59E0B"); ("events", "#8B5CF6"); ("allgemein", "#64748B")].

Definition getTypeColor (inherited : string -> bool) (type : string) : Lookup string :=
  getPropertyOr inherited colors type "#64748B".

End GroupList.

(** ** group/create.tsx *)

Module CreateGroup.

Record GroupType := {
  value : string;
  label : string;
  icon : string;
  color : string
}.

Definition GROUP_TYPES : list GroupType :=
  [{| value := "allgemein"; label := "Allgemein"; icon := "chatbubbles"; color := "#64748B" |};
   {| value := "vorstand"; label := "Vorstand"; icon := "shield"; color := "#EF4444" |};
   {| value := "mitglieder"; label := "Mitglieder"; icon := "people"; color := "#3B82F6" |};
   {| value := "team"; label := "Team/Mannschaft"; icon := "football"; color := "#10B981" |};
   {| value := "projekt"; label := "Projekt"; icon := "construct"; color := "#F59E0B" |};
   {| value := "events"; label := "Events"; icon := "calendar"; color := "#8B5CF6" |}].

Record State := {
  name : jsstring;
  description : jsstring;
  type : string;
  loading : bool
}.

Definition initial : State :=
  {| name := []; description := []; type := "allgemein"; loading := false |}.

Record GroupBody := {
  body_name : jsstring;
  body_description : option jsstring;
  body_type : string
}.

Definition groupBody (st : State) : GroupBody :=
  {| body_name := trim (name st);
     body_description := orNull (trim (description st));
     body_type := type st |}.

(** What a press on the create button comes to: the validation alert
    and no request, or [POST /api/groups] with the body, followed by the
    alert for the answer. *)
Inductive Outcome :=
  | Refused (alert : Effect)
  | Posted (body : GroupBody) (alert : Effect).

Definition handleCreate (st : State) (reply : Reply string) : State * Outcome :=
  if negb (truthy (trim (name st))) then
    (st, Refused (ShowAlert "Fehler" "Bitte gib einen Gruppennamen ein"))
  else
    let st' := {| name := name st; description := description st;
                  type := type st; loading := false |} in
    match reply with
    | Resolved i =>
        (st', Posted (groupBody st)
                (ShowAlertThen "Erfolg" "Gruppe erstellt" "OK" ("/group/" +:+ i)))
    | Rejected d =>
        (st', Posted (groupBody st)
                (ShowAlert "Fehler" (detailOr d "Gruppe konnte nicht erstellt werden")))
    end.

Definition nameMaxLength : nat := 50.
Definition descriptionMaxLength : nat := 200.

(** The form in use: typing into the two fields (through the native
    text field [edit], as in the chat), tapping the [i]-th tile of the
    type picker, pressing the create button. *)
Inductive FormEvent :=
  | EvName (typed : jsstring)
  | EvDescription (typed : jsstring)
  | EvType (i : nat)
  | EvCreate (reply : Reply string).

Definition step (edit : option nat -> jsstring -> jsstring) (st : State)
    (ev : FormEvent) : State * list GroupBody :=
  match ev with
  | EvName typed =>
      ({| name := edit (Some nameMaxLength) typed; description := description st;
          type := type st; loading := loading st |}, [])
  | EvDescription typed =>
      ({| name := name st; description := edit (Some descriptionMaxLength) typed;
          type := type st; loading := loading st |}, [])
  | EvType i =>
      match GROUP_TYPES !! i with
      | Some t => ({| name := name st; description := description st;
                      type := value t; loading := loading st |}, [])
      | None => (st, [])
      end
  | EvCreate reply =>
      match handleCreate st reply with
      | (st', Posted body _) => (st', [body])
      | (st', Refused _) => (st', [])
      end
  end.

Fixpoint run (edit : option nat -> jsstring -> jsstring) (st : State)
    (evs : list FormEvent) : State * list GroupBody :=
  match evs with
  | [] => (st, [])
  | ev :: evs' =>
      let '(st1, posted1) := step edit st ev in
      let '(st2, posted2) := run edit st1 evs' in
      (st2, posted1 ++ posted2)
  end.

(** What the form keeps true while it is used. *)
Definition formOk (st : State) : Prop :=
  length (name st) ≤ nameMaxLength ∧
  length (description st) ≤ descriptionMaxLength ∧
  ∃ t, t ∈ GROUP_TYPES ∧ type st = value t.

End CreateGroup.

(** ** document/upload.tsx *)

Module Upload.

Record Asset := {
  uri : string;
  asset_name : option jsstring;
  mimeType : option string
}.

Record PickerResult := {
  canceled : bool;
  assets : option (list Asset)
}.

Record State := {
  name : jsstring;
  selectedFile : option Asset;
  loading : bool
}.

Definition initial : State :=
  {| name := []; selectedFile := None; loading := false |}.

(** [file.name || 'Dokument'] *)
Definition nameOf (file : Asset) : jsstring :=
  match asset_name file with
  | Some (c :: n) => c :: n
  | _ => lit "Dokument"
  end.

(** [pickDocument]; a picker that throws is logged and alerted. *)
Definition pickDocument (st : State) (result : Reply PickerResult)
    : State * list Effect :=
  match result with
  | Resolved r =>
      match canceled r, assets r with
      | false, Some (file :: _) =>
          ({| name := if truthy (name st) then name st else nameOf file;
              selectedFile := Some file; loading := loading st |}, [])
      | _, _ => (st, [])
      end
  | Rejected _ =>
      (st, [ConsoleError "Error picking document:";
            ShowAlert "Fehler" "Datei konnte nicht ausgewählt werden"])
  end.

Record DocumentBody := {
  body_name : jsstring;
  body_content : string;
  body_file_type : string
}.

(** [selectedFile.mimeType || 'application/octet-stream'] *)
Definition fileTypeOf (file : Asset) : string :=
  if truthyField (mimeType file) then default "" (mimeType file)
  else "application/octet-stream".

Inductive Outcome :=
  | Refused (message : string)
  | ReadFailed (message : string)
  | PostRejected (body : DocumentBody) (message : string)
  | Uploaded (body : DocumentBody).

(** [handleUpload]; [read] is the answer of the file system (the file as
    base64), [reply] the answer to [POST /api/documents].  A failed read
    has no [response], so the alert shows the fallback text. *)
Definition handleUpload (st : State) (read : Reply string) (reply : Reply unit)
    : State * Outcome :=
  match selectedFile st with
  | None => (st, Refused "Bitte wähle eine Datei aus")
  | Some file =>
      if negb (truthy (trim (name st))) then
        (st, Refused "Bitte gib einen Namen ein")
      else
        let st' := {| name := name st; selectedFile := selectedFile st;
                      loading := false |} in
        match read with
        | Rejected _ => (st', ReadFailed "Upload fehlgeschlagen")
        | Resolved base64 =>
            let body := {| body_name := trim (name st); body_content := base64;
                           body_file_type := fileTypeOf file |} in
            match reply with
            | Resolved _ => (st', Uploaded body)
            | Rejected d => (st', PostRejected body (detailOr d "Upload fehlgeschlagen"))
            end
        end
  end.

End Upload.

(** ** Decimal numerals *)

(** The number written by a string of decimal digits, most significant
    digit first. *)
Definition decimalValue (digits : jsstring) : N :=
  fold_left (fun acc c => 10 * acc + (c - 48))%N digits 0%N.

Definition isDigit (c : N) : bool := ((48 <=? c) && (c <=? 57))%N.

(** ** More sample data *)

Module Fixtures.

Definition trainer : Auth.User :=
  {| Auth.id := "u2"; Auth.email := "tom@verein.example";
     Auth.name := "Tom"; Auth.role := "trainer";
     Auth.phone := None; Auth.position := None |}.

(** A chat with the draft "hi" typed in. *)
Definition draftHi : GroupChat.State :=
  {| GroupChat.group := None; GroupChat.messages := [];
     GroupChat.newMessage := lit "hi";
     GroupChat.loading := false; GroupChat.sending := false |}.

Definition later : GroupChat.Message :=
  {| GroupChat.id := "m2"; GroupChat.content := "bis morgen";
     GroupChat.sender_id := "u2"; GroupChat.sender_name := "Tom";
     GroupChat.created_at := "2025-07-01T19:30:00" |}.

(** A stand-in for the date formatter: the day part of the timestamp. *)
Definition dayOf (created_at : option string) : string :=
  match created_at with
  | Some s => String.substring 0 10 s
  | None => ""
  end.

(** A toy codec for the stored user: the user is its name, written
    behind an opening brace. *)
Definition writeUser (u : string) : string := "{" +:+ u.

Definition readUser (s : string) : option string :=
  match s with
  | String "{" u => Some u
  | _ => None
  end.

Definition renameUser (u data : string) : string := data.

Definition sheet : Upload.Asset :=
  {| Upload.uri := "file:///cache/plan.xlsx";
     Upload.asset_name := Some (lit "plan.xlsx");
     Upload.mimeType := None |}.

Definition picked : Upload.PickerResult :=
  {| Upload.canceled := false; Upload.assets := Some [sheet] |}.

Definition ooxmlSheet : string :=
  "application/vnd.openxmlformats-officedocument.spreadsheetml.sheet".

Definition plan : Documents.Document :=
  {| Documents.id := "d1"; Documents.name := "Trainingsplan";
     Documents.file_type := ooxmlSheet; Documents.uploaded_by := "u1";
     Documents.uploader_name := "Vera";
     Documents.created_at := "2025-07-01T18:00:00";
     Documents.group_id := None |}.

End Fixtures.

(** * Properties *)

(** ** Facts about [trim] *)

Section TrimFacts.

Implicit Types s : jsstring.

Lemma trimStart_length s : length (trimStart s) ≤ length s.
Proof.
  induction s as [|c s IH]; simpl; [lia|].
  destruct (isWhiteSpace c); simpl; lia.
Qed.

Lemma trim_length s : length (trim s) ≤ length s.
Proof.
  unfold trim, trimEnd. rewrite length_rev.
  etransitivity; [apply trimStart_length|].
  rewrite length_rev. apply trimStart_length.
Qed.

Lemma trimStart_nil_iff s : trimStart s = [] ↔ forallb isWhiteSpace s = true.
Proof.
  induction s as [|c s IH]; simpl; [done|].
  destruct (isWhiteSpace c); simpl; [done|]. split; discriminate.
Qed.

(** What [trimStart] keeps starts with a code unit that is not white
    space. *)
Lemma trimStart_head s c r : trimStart s = c :: r → isWhiteSpace c = false.
Proof.
  induction s as [|d s IH]; simpl; [discriminate|].
  destruct (isWhiteSpace d) eqn:Hd; [done|]. by intros [= <- _].
Qed.

Lemma trimStart_snoc s c :
  isWhiteSpace c = false → trimStart (s ++ [c]) ≠ [].
Proof.
  intros Hc. induction s as [|d s IH]; simpl.
  - by rewrite Hc.
  - by destruct (isWhiteSpace d).
Qed.

Lemma rev_nil_inv {A} (l : list A) : rev l = [] → l = [].
Proof.
  intros H. apply (f_equal (@length A)) in H. rewrite length_rev in H.
  by destruct l.
Qed.

(** [trim] leaves nothing exactly when every code unit is white space. *)
Lemma trim_nil_iff s : trim s = [] ↔ forallb isWhiteSpace s = true.
Proof.
  rewrite <- trimStart_nil_iff. unfold trim, trimEnd. split.
  - intros H%rev_nil_inv.
    destruct (trimStart s) as [|c r] eqn:Hs; [done|].
    apply trimStart_head in Hs. simpl in H.
    by apply trimStart_snoc with (s := rev r) in Hs.
  - by intros ->.
Qed.

Lemma truthy_false s : truthy s = false ↔ s = [].
Proof. destruct s; simpl; split; done. Qed.

(** A non-empty string whose first and last code units are not white
    space is its own trim. *)
Lemma trim_id s c d r :
  s = c :: r → last s = Some d →
  isWhiteSpace c = false → isWhiteSpace d = false → trim s = s.
Proof.
  intros -> Hlast Hc Hd. unfold trim, trimEnd. simpl trimStart at 2.
  rewrite Hc.
  destruct (rev (c :: r)) as [|e t] eqn:Hrev.
  { by apply rev_nil_inv in Hrev. }
  assert (He : e = d).
  { apply (f_equal (@rev N)) in Hrev. rewrite rev_involutive in Hrev.
    rewrite Hrev in Hlast. simpl in Hlast. rewrite last_snoc in Hlast.
    congruence. }
  subst e. simpl. rewrite Hd, <- Hrev. apply rev_involutive.
Qed.

End TrimFacts.

(** ** Role gates *)

(** C1: for every logged-in user, [canCreateGroup] and [canCreateEvent]
    hold exactly when the role is admin or trainer; they are false for
    mitglied and gast, and the add buttons of the two list screens (the
    entry points to the creation routes) are rendered under the same
    condition. *)
Theorem canCreate_admin_or_trainer (u : Auth.User) :
  (Groups.canCreateGroup (Some u) = true ↔
     Auth.role u = "admin" ∨ Auth.role u = "trainer") ∧
  (Events.canCreateEvent (Some u) = true ↔
     Auth.role u = "admin" ∨ Auth.role u = "trainer") ∧
  (Auth.role u = "mitglied" ∨ Auth.role u = "gast" →
     Groups.canCreateGroup (Some u) = false ∧
     Events.canCreateEvent (Some u) = false) ∧
  (is_Some (Groups.addButton (Some u)) ↔
     Auth.role u = "admin" ∨ Auth.role u = "trainer") ∧
  (is_Some (Events.addButton (Some u)) ↔
     Auth.role u = "admin" ∨ Auth.role u = "trainer").
Proof.
  assert (Hgate : Auth.roleIs (Some u) "admin" || Auth.roleIs (Some u) "trainer" = true
                  ↔ Auth.role u = "admin" ∨ Auth.role u = "trainer").
  { simpl. by rewrite orb_true_iff, !String.eqb_eq. }
  unfold Groups.addButton, Events.addButton,
    Groups.canCreateGroup, Events.canCreateEvent.
  split; [exact Hgate|]. split; [exact Hgate|]. split.
  { intros [Hr | Hr]; simpl; rewrite Hr; by split. }
  split.
  - split.
    + intros [e He]. apply Hgate. by destruct (_ || _).
    + intros H. apply Hgate in H. rewrite H. by eexists.
  - split.
    + intros [e He]. apply Hgate. by destruct (_ || _).
    + intros H. apply Hgate in H. rewrite H. by eexists.
Qed.

Lemma canCreate_admin_or_trainer_witness :
  Groups.canCreateGroup (Some Samples.guest) = false ∧
  Events.canCreateEvent (Some Samples.guest) = false.
Proof.
  apply (canCreate_admin_or_trainer Samples.guest). right. reflexivity.
Defined.

(** ** The group chat: sending *)

Lemma requests_app (es1 es2 : list Effect) :
  requests (es1 ++ es2) = requests es1 ++ requests es2.
Proof.
  induction es1 as [|e es1 IH]; simpl; [done|].
  destruct e; simpl; by rewrite ?IH.
Qed.

Section Sending.

Import GroupChat.

Variable gid : string.

(** Every request of [sendMessage] is the post of the trimmed draft, and
    the trimmed draft is then not empty. *)
Lemma sendMessage_requests st reply r :
  r ∈ requests (sendMessage gid st reply).2 →
  r = ApiPost (messagesUrl gid) (MessageBody (trim (newMessage st))) ∧
  trim (newMessage st) ≠ [].
Proof.
  unfold sendMessage.
  destruct (trim (newMessage st)) as [|c t] eqn:Ht; simpl.
  - by intros ?%elem_of_nil.
  - destruct reply; simpl; intros ->%list_elem_of_singleton; done.
Qed.

Lemma sendMessage_draft st reply :
  length (newMessage (sendMessage gid st reply).1) ≤ length (newMessage st).
Proof.
  unfold sendMessage. destruct (negb _); simpl; [done|].
  destruct reply; simpl; lia.
Qed.

Variable edit : option nat → jsstring → jsstring.
Hypothesis edit_maxLength : ∀ n typed, length (edit (Some n) typed) ≤ n.

Lemma step_draft st ev :
  length (newMessage st) ≤ 1000 →
  length (newMessage (step edit gid st ev).1) ≤ 1000.
Proof.
  intros Hst. destruct ev as [typed|reply|reply]; simpl.
  - apply edit_maxLength.
  - destruct (sendDisabled st); [done|].
    etransitivity; [apply sendMessage_draft|done].
  - by destruct reply.
Qed.

Lemma step_posts st ev url c :
  length (newMessage st) ≤ 1000 →
  ApiPost url (MessageBody c) ∈ requests (step edit gid st ev).2 →
  1 ≤ length c ≤ 1000.
Proof.
  intros Hst. destruct ev as [typed|reply|reply]; simpl.
  - by intros ?%elem_of_nil.
  - destruct (sendDisabled st); simpl; [by intros ?%elem_of_nil|].
    intros [Heq Hne]%sendMessage_requests. injection Heq as _ ->.
    pose proof (trim_length (newMessage st)).
    destruct (trim (newMessage st)); [done|]. simpl in *. lia.
  - destruct reply; simpl; intros H%list_elem_of_singleton; discriminate.
Qed.

Lemma run_posts evs st url c :
  length (newMessage st) ≤ 1000 →
  ApiPost url (MessageBody c) ∈ requests (run edit gid st evs).2 →
  1 ≤ length c ≤ 1000.
Proof.
  revert st. induction evs as [|ev evs IH]; intros st Hst; simpl.
  - by intros ?%elem_of_nil.
  - pose proof (step_draft st ev Hst) as Hst1.
    pose proof (step_posts st ev url c Hst) as Hpost.
    destruct (step edit gid st ev) as [st1 es1].
    specialize (IH st1 Hst1).
    destruct (run edit gid st1 evs) as [st2 es2]. simpl in *.
    rewrite requests_app, elem_of_app. intros [H|H]; auto.
Qed.

End Sending.

(** C5: [sendMessage] leaves the state alone and issues nothing when the
    draft is empty or all white space; any request it issues is the
    post of the trimmed draft, which is then not empty; the draft input
    carries [maxLength] 1000, so that, with a text field that honours
    the prop, every content ever posted from the screen has between 1
    and 1000 code units. *)
Theorem sendMessage_nonempty_bounded (gid : string) (st : GroupChat.State)
    (reply : Reply GroupChat.Message) :
  (forallb isWhiteSpace (GroupChat.newMessage st) = true →
     GroupChat.sendMessage gid st reply = (st, [])) ∧
  (∀ r, r ∈ requests (GroupChat.sendMessage gid st reply).2 →
     r = ApiPost (GroupChat.messagesUrl gid)
           (MessageBody (trim (GroupChat.newMessage st))) ∧
     trim (GroupChat.newMessage st) ≠ []) ∧
  (forallb isWhiteSpace (GroupChat.newMessage st) = false →
     requests (GroupChat.sendMessage gid st reply).2 =
     [ApiPost (GroupChat.messagesUrl gid)
        (MessageBody (trim (GroupChat.newMessage st)))]) ∧
  GroupChat.maxLength (GroupChat.chatInput st) = Some 1000 ∧
  (∀ edit : option nat → jsstring → jsstring,
     (∀ n typed, length (edit (Some n) typed) ≤ n) →
     ∀ evs url c,
       ApiPost url (MessageBody c) ∈
         requests (GroupChat.run edit gid GroupChat.initial evs).2 →
       1 ≤ length c ≤ 1000).
Proof.
  split; [|split; [|split; [|split]]].
  - intros Hws%trim_nil_iff. unfold GroupChat.sendMessage. by rewrite Hws.
  - apply sendMessage_requests.
  - intros Hws. unfold GroupChat.sendMessage.
    destruct (trim (GroupChat.newMessage st)) eqn:Ht.
    { apply trim_nil_iff in Ht. congruence. }
    by destruct reply.
  - reflexivity.
  - intros edit Hedit evs url c. apply run_posts; [done|]. simpl. lia.
Qed.

(** ** Event creation: validation before the request *)

Section DateFormat.

Import CreateEvent.

Lemma digit_not_whitespace c :
  atomMatches Digit c = true → isWhiteSpace c = false.
Proof.
  simpl. intros [H1%N.leb_le H2%N.leb_le]%andb_prop.
  unfold isWhiteSpace.
  repeat (apply orb_false_intro);
    try (apply N.eqb_neq; lia);
    apply andb_false_iff; (left; apply N.leb_gt; lia) || (right; apply N.leb_gt; lia).
Qed.

(** A string accepted by the date pattern has ten code units, the first
    and the last of them digits. *)
Lemma dateRegex_shape s :
  test dateRegex s = true →
  ∃ c r d, s = c :: r ∧ last s = Some d ∧ length s = 10 ∧
           atomMatches Digit c = true ∧ atomMatches Digit d = true.
Proof.
  unfold dateRegex. intros H.
  do 10 (destruct s as [|? s];
         [cbn [test] in H; rewrite ?andb_false_r in H; discriminate|]).
  destruct s; [|cbn [test] in H; rewrite ?andb_false_r in H; discriminate].
  cbn [test] in H. rewrite !andb_true_iff in H.
  eexists _, _, _. repeat split; try reflexivity; apply H.
Qed.

(** Trimming does not alter a date that the pattern accepts. *)
Lemma dateRegex_trim s : test dateRegex s = true → trim s = s.
Proof.
  intros (c & r & d & Hs & Hlast & _ & Hc & Hd)%dateRegex_shape.
  eapply trim_id; eauto using digit_not_whitespace.
Qed.

End DateFormat.

(** C8: when the trimmed title is empty or the date does not match
    [^\d{4}-\d{2}-\d{2}$], [handleCreate] returns with the state
    unchanged and without any request; every request it issues is the
    post to [/api/events] of a body whose title is not empty and whose
    date matches the pattern. *)
Theorem handleCreate_validates (st : CreateEvent.State) (reply : Reply string) :
  (trim (CreateEvent.title st) = [] ∨
   CreateEvent.test CreateEvent.dateRegex (CreateEvent.date st) = false →
     (CreateEvent.handleCreate st reply).1 = st ∧
     requests (CreateEvent.handleCreate st reply).2 = []) ∧
  (∀ r, r ∈ requests (CreateEvent.handleCreate st reply).2 →
     r = ApiPost "/api/events" (EventBodyOf (CreateEvent.eventBody st)) ∧
     body_title (CreateEvent.eventBody st) ≠ [] ∧
     body_date (CreateEvent.eventBody st) = CreateEvent.date st ∧
     CreateEvent.test CreateEvent.dateRegex
       (body_date (CreateEvent.eventBody st)) = true).
Proof.
  unfold CreateEvent.handleCreate. split.
  - intros [Ht | Hd].
    + by rewrite Ht.
    + destruct (negb (truthy (trim (CreateEvent.title st)))); [done|].
      destruct (negb (truthy (trim (CreateEvent.date st)))); [done|].
      by rewrite Hd.
  - intros r.
    destruct (truthy (trim (CreateEvent.title st))) eqn:Ht; cbn [negb];
      [|simpl; by intros ?%elem_of_nil].
    destruct (truthy (trim (CreateEvent.date st))) eqn:Hdt; cbn [negb];
      [|simpl; by intros ?%elem_of_nil].
    destruct (CreateEvent.test CreateEvent.dateRegex (CreateEvent.date st))
      eqn:Hd; cbn [negb]; [|simpl; by intros ?%elem_of_nil].
    pose proof (dateRegex_trim _ Hd) as Htrim.
    assert (r = ApiPost "/api/events" (EventBodyOf (CreateEvent.eventBody st)) →
            r = ApiPost "/api/events" (EventBodyOf (CreateEvent.eventBody st)) ∧
            trim (CreateEvent.title st) ≠ [] ∧
            trim (CreateEvent.date st) = CreateEvent.date st ∧
            CreateEvent.test CreateEvent.dateRegex (trim (CreateEvent.date st)) = true)
      as Hgoal.
    { intros ->. rewrite Htrim. repeat split; try done.
      intros Hnil. by rewrite Hnil in Ht. }
    destruct reply; cbn [snd requests];
      intros ->%list_elem_of_singleton; by apply Hgoal.
Qed.

(** ** Notifications: read state *)

Section ReadState.

Import Notifications.

Lemma withRead_read n : read (withRead n) = true.
Proof. reflexivity. Qed.

Lemma withRead_idemp n : withRead (withRead n) = withRead n.
Proof. reflexivity. Qed.

(** A notification that is already read is not changed by [withRead]. *)
Lemma withRead_of_read n : read n = true → withRead n = n.
Proof. destruct n as [? ? ? r ? ? ?]; simpl. by intros ->. Qed.

Lemma unreadCount_all_read ns :
  Forall (λ n, read n = true) ns → unreadCount ns = 0.
Proof.
  unfold unreadCount. induction 1 as [|n ns Hn _ IH]; simpl; [done|].
  by rewrite Hn.
Qed.

Lemma map_withRead_all_read ns : Forall (λ n, read n = true) (map withRead ns).
Proof. induction ns; simpl; constructor; auto. Qed.

Lemma map_withRead_idemp ns : map withRead (map withRead ns) = map withRead ns.
Proof. rewrite map_map. apply map_ext. intros n. apply withRead_idemp. Qed.

(** Position-wise description of the list after a resolved
    [markAsRead]. *)
Lemma markAsRead_lookup i ns k :
  (markAsRead i ns (Resolved ())).1 !! k =
  (λ n, if String.eqb (id n) i then withRead n else n) <$> ns !! k.
Proof.
  simpl. revert k. induction ns as [|n ns IH]; intros [|k]; simpl; auto.
Qed.

End ReadState.

(** C6: after a resolved [markAllAsRead] every notification of the list
    is read, each being the old one with [read] set, and [unreadCount]
    is 0; marking all a second time gives the same list as marking
    once. *)
Theorem markAllAsRead_clears_unread (ns : list Notifications.Notification) :
  Forall (λ n, Notifications.read n = true)
         (Notifications.markAllAsRead ns (Resolved ())).1 ∧
  (Notifications.markAllAsRead ns (Resolved ())).1 =
    map Notifications.withRead ns ∧
  Notifications.unreadCount
    (Notifications.markAllAsRead ns (Resolved ())).1 = 0 ∧
  Notifications.markAllButton
    (Notifications.markAllAsRead ns (Resolved ())).1 = false ∧
  (Notifications.markAllAsRead
     (Notifications.markAllAsRead ns (Resolved ())).1 (Resolved ())).1 =
    (Notifications.markAllAsRead ns (Resolved ())).1 ∧
  (∀ reply,
     (Notifications.markAllAsRead
        (Notifications.markAllAsRead ns reply).1 reply).1 =
     (Notifications.markAllAsRead ns reply).1).
Proof.
  pose proof (map_withRead_all_read ns) as Hall.
  pose proof (unreadCount_all_read _ Hall) as Hcount.
  simpl. repeat split; try done.
  - unfold Notifications.markAllButton. by rewrite Hcount.
  - apply map_withRead_idemp.
  - intros [[]|d]; simpl; [apply map_withRead_idemp|done].
Qed.

(** C9: a resolved [markAsRead i] keeps the length and the order of the
    list; a notification whose id is [i] becomes the same record with
    [read] set and every other field kept, any other notification is
    kept as it is; when no notification has the id the list is
    unchanged, and a rejected request leaves the list unchanged too. *)
Theorem markAsRead_frame (i : string) (ns : list Notifications.Notification) :
  length (Notifications.markAsRead i ns (Resolved ())).1 = length ns ∧
  (∀ k n, ns !! k = Some n →
     ∃ n', (Notifications.markAsRead i ns (Resolved ())).1 !! k = Some n' ∧
           Notifications.id n' = Notifications.id n ∧
           Notifications.type n' = Notifications.type n ∧
           Notifications.message n' = Notifications.message n ∧
           Notifications.created_at n' = Notifications.created_at n ∧
           Notifications.group_id n' = Notifications.group_id n ∧
           Notifications.event_id n' = Notifications.event_id n ∧
           (Notifications.id n = i → Notifications.read n' = true) ∧
           (Notifications.id n ≠ i → n' = n)) ∧
  ((∀ n, n ∈ ns → Notifications.id n ≠ i) →
     (Notifications.markAsRead i ns (Resolved ())).1 = ns) ∧
  (∀ d, (Notifications.markAsRead i ns (Rejected d)).1 = ns).
Proof.
  split; [|split; [|split]].
  - simpl. apply length_map.
  - intros k n Hk. rewrite markAsRead_lookup, Hk. simpl.
    destruct (String.eqb_spec (Notifications.id n) i) as [Heq|Hne].
    + eexists. split; [reflexivity|]. simpl. repeat split; done.
    + eexists. split; [reflexivity|]. repeat split; done.
  - intros Hfresh. simpl.
    induction ns as [|n ns IH]; simpl; [done|].
    destruct (String.eqb_spec (Notifications.id n) i) as [Heq|Hne].
    + exfalso. apply (Hfresh n); [left|done].
    + f_equal. apply IH. intros m Hm. apply Hfresh. by right.
  - done.
Qed.

(** ** Free spots *)

(** Up to [2^53] in magnitude every integer is a double. *)
Lemma nearestDouble_safe (x : Z) :
  (Z.abs x ≤ 9007199254740992)%Z → nearestDouble x = x.
Proof.
  intros Hx. unfold nearestDouble.
  change (2 ^ 53)%Z with 9007199254740992%Z.
  by rewrite (proj2 (Z.leb_le _ _) Hx).
Qed.

Lemma lengthOr0_nonneg {A} (a : option (list A)) : (0 ≤ lengthOr0 a)%Z.
Proof. destruct a; simpl; lia. Qed.

(** The two screens compute the same value from the same fields. *)
Lemma spotsLeft_cases (m : option Z) (a : option (list string)) (r : option Z) :
  r = match m with
      | Some m =>
          if (m =? 0)%Z then None else Some (nearestDouble (m - lengthOr0 a))
      | None => None
      end →
  (∀ k, m = Some k → k ≠ 0%Z →
     r = Some (nearestDouble (k - lengthOr0 a)) ∧
     ((k ≤ 9007199254740992)%Z → (-9007199254740992 ≤ k - lengthOr0 a)%Z →
        r = Some (k - lengthOr0 a)%Z ∧
        ((k < lengthOr0 a)%Z → ∃ v, r = Some v ∧ (v < 0)%Z))) ∧
  (m = None ∨ m = Some 0%Z → r = None).
Proof.
  intros ->. split.
  - intros k -> Hk. destruct (Z.eqb_spec k 0) as [|_]; [done|].
    split; [done|]. intros Hhi Hlo.
    pose proof (lengthOr0_nonneg a).
    rewrite nearestDouble_safe by lia.
    split; [done|]. intros Hlt. eexists. split; [done|lia].
  - by intros [-> | ->].
Qed.

(** C10 (amended): for an event whose [max_participants] is set to a
    non-zero number, both screens compute the free spots as the double
    nearest to [max_participants] minus the number of attendees (0 when
    the array is missing).  While the limit is at most [2^53] and the
    difference at least [-2^53], the range in which the numbers of
    JavaScript are exact, this is the exact integer difference, not
    clamped at zero and negative whenever the attendees exceed the
    limit; when [max_participants] is unset or is 0, no value is
    computed. *)
Theorem spotsLeft_exact (item : Events.Event) (event : EventDetail.Event) :
  (∀ m, Events.max_participants item = Some m → m ≠ 0%Z →
     Events.spotsLeft item =
       Some (nearestDouble (m - lengthOr0 (Events.attendees item))) ∧
     ((m ≤ 9007199254740992)%Z →
      (-9007199254740992 ≤ m - lengthOr0 (Events.attendees item))%Z →
        Events.spotsLeft item = Some (m - lengthOr0 (Events.attendees item))%Z ∧
        ((m < lengthOr0 (Events.attendees item))%Z →
           ∃ v, Events.spotsLeft item = Some v ∧ (v < 0)%Z))) ∧
  (∀ m, EventDetail.max_participants event = Some m → m ≠ 0%Z →
     EventDetail.spotsLeft event =
       Some (nearestDouble (m - lengthOr0 (EventDetail.attendees event))) ∧
     ((m ≤ 9007199254740992)%Z →
      (-9007199254740992 ≤ m - lengthOr0 (EventDetail.attendees event))%Z →
        EventDetail.spotsLeft event =
          Some (m - lengthOr0 (EventDetail.attendees event))%Z ∧
        ((m < lengthOr0 (EventDetail.attendees event))%Z →
           ∃ v, EventDetail.spotsLeft event = Some v ∧ (v < 0)%Z))) ∧
  (Events.max_participants item = None ∨
   Events.max_participants item = Some 0%Z → Events.spotsLeft item = None) ∧
  (EventDetail.max_participants event = None ∨
   EventDetail.max_participants event = Some 0%Z →
     EventDetail.spotsLeft event = None).
Proof.
  destruct (spotsLeft_cases (Events.max_participants item)
              (Events.attendees item) (Events.spotsLeft item) eq_refl)
    as [Hl1 Hl2].
  destruct (spotsLeft_cases (EventDetail.max_participants event)
              (EventDetail.attendees event) (EventDetail.spotsLeft event) eq_refl)
    as [Hd1 Hd2].
  split; [exact Hl1|]. split; [exact Hd1|]. split; [exact Hl2|exact Hd2].
Qed.

(** ** Member management: no role dialog for oneself *)

Section SelfEdit.

Import Auth Members.

Lemma isCurrentUser_iff (u item : User) :
  isCurrentUser (Some u) item = true ↔ id item = id u.
Proof. simpl. apply String.eqb_eq. Qed.

(** The dialog opened by a row is the one of that row's member, and a
    row opens one only for somebody else. *)
Lemma press_renderMember (u item : User) dlg :
  press (renderMember (Some u) item) = Some dlg →
  id item ≠ id u ∧ dlg = changeRole item.
Proof.
  unfold press, renderMember. cbn [disabled rowOnPress].
  destruct (isCurrentUser (Some u) item) eqn:Hcur; [done|].
  cbn [negb]. intros [= <-]. split; [|done].
  intros Heq%isCurrentUser_iff. congruence.
Qed.

(** The requests behind the buttons of the role dialog. *)
Lemma changeRole_requests (member : User) (reply : Reply unit) r :
  r ∈ flat_map (λ b, requests (onPress b reply)) (buttons (changeRole member)) →
  r = ApiGet "/api/users" ∨
  ∃ ro, ro ∈ roles ∧ r = ApiPut (roleUrl (id member) ro).
Proof.
  unfold changeRole, roles. cbn [buttons map app flat_map roleButton onPress].
  destruct reply; cbn [requests app]; rewrite ?app_nil_r;
    intros H; repeat (apply elem_of_cons in H as [-> | H]);
    try (by left); try (right; eexists; split; [|reflexivity]; set_solver);
    by apply elem_of_nil in H.
Qed.

End SelfEdit.

(** C4: for a listed member whose id is the current user's, the row is
    disabled, its press handler opens no role dialog and no request
    follows; whenever a row does open the dialog, it is the dialog of a
    member other than the current user, and every request behind it is
    a role change of that member or the reload of the list.
    [changeRole] itself does not look at the current user: applied to
    the actor it would offer every role change. *)
Theorem renderMember_never_self (u item : Auth.User) (reply : Reply unit) :
  (Auth.id item = Auth.id u →
     Members.disabled (Members.renderMember (Some u) item) = true ∧
     Members.rowOnPress (Members.renderMember (Some u) item) = None ∧
     Members.press (Members.renderMember (Some u) item) = None ∧
     Members.rowRequests (Some u) item reply = []) ∧
  (∀ dlg, Members.press (Members.renderMember (Some u) item) = Some dlg →
     Auth.id item ≠ Auth.id u ∧ dlg = Members.changeRole item) ∧
  (∀ r, r ∈ Members.rowRequests (Some u) item reply →
     Auth.id item ≠ Auth.id u ∧
     (r = ApiGet "/api/users" ∨
      ∃ ro, ro ∈ Members.roles ∧
            r = ApiPut (Members.roleUrl (Auth.id item) ro))) ∧
  (∀ ro, ro ∈ Members.roles →
     ApiPut (Members.roleUrl (Auth.id u) ro) ∈
       flat_map (λ b, requests (Members.onPress b reply))
                (Members.buttons (Members.changeRole u))).
Proof.
  split; [|split; [|split]].
  - intros Heq%isCurrentUser_iff.
    unfold Members.rowRequests, Members.press, Members.renderMember.
    cbn [Members.disabled Members.rowOnPress]. by rewrite Heq.
  - apply press_renderMember.
  - intros r. unfold Members.rowRequests.
    destruct (Members.press _) as [dlg|] eqn:Hp; [|by intros ?%elem_of_nil].
    apply press_renderMember in Hp as [Hne ->].
    intros H%changeRole_requests. done.
  - intros ro Hro. unfold Members.roles in Hro.
    unfold Members.changeRole, Members.roles.
    cbn [Members.buttons map app flat_map Members.roleButton Members.onPress].
    destruct reply; cbn [requests app];
      repeat (apply elem_of_cons in Hro as [-> | Hro]);
      try (by apply elem_of_nil in Hro); set_solver.
Qed.

(** ** The group chat: polling *)

Section Polling.

Import GroupChat.

Variable gid : string.

Lemma loadMessages_requests st reply :
  requests (loadMessages gid st reply).2 = [ApiGet (messagesUrl gid)].
Proof. by destruct reply. Qed.

(** The [k]-th entry of the trace is stamped [t0 + (k + 1) * ms] and is
    one fetch of the message list. *)
Lemma pollTrace_lookup ms replies t0 st k t es :
  (pollTrace gid ms t0 st replies).2 !! k = Some (t, es) →
  t = (t0 + ms * N.of_nat (S k))%N ∧
  requests es = [ApiGet (messagesUrl gid)].
Proof.
  revert t0 st k. induction replies as [|r replies IH]; intros t0 st k; simpl.
  - by rewrite lookup_nil.
  - pose proof (loadMessages_requests st r) as Hreq.
    destruct (loadMessages gid st r) as [st1 es1].
    specialize (IH (t0 + ms)%N st1).
    destruct (pollTrace gid ms (t0 + ms) st1 replies) as [st2 tr].
    destruct k as [|k]; simpl.
    + intros [= <- <-]. split; [lia|done].
    + intros Hk. apply IH in Hk as [-> Hes]. split; [lia|done].
Qed.

Lemma pollTrace_length ms replies t0 st :
  length (pollTrace gid ms t0 st replies).2 = length replies.
Proof.
  revert t0 st. induction replies as [|r replies IH]; intros t0 st; simpl; [done|].
  destruct (loadMessages gid st r) as [st1 es1].
  specialize (IH (t0 + ms)%N st1).
  destruct (pollTrace gid ms (t0 + ms) st1 replies) as [st2 tr].
  simpl in *. by rewrite IH.
Qed.

(** After a run of polls that ends with a resolved one, the list shown
    is the list of that last answer, whatever was there before. *)
Lemma pollTrace_last ms replies t0 st msgs :
  (pollTrace gid ms t0 st (replies ++ [Resolved msgs])).1.(messages) = msgs.
Proof.
  revert t0 st. induction replies as [|r replies IH]; intros t0 st; simpl.
  - reflexivity.
  - destruct (loadMessages gid st r) as [st1 es1].
    specialize (IH (t0 + ms)%N st1).
    by destruct (pollTrace gid ms (t0 + ms) st1 (replies ++ [Resolved msgs])).
Qed.

Lemma step_requests edit st ev r :
  r ∈ requests (step edit gid st ev).2 →
  r = ApiGet (messagesUrl gid) ∨
  ∃ c, r = ApiPost (messagesUrl gid) (MessageBody c).
Proof.
  destruct ev as [typed|reply|reply]; simpl.
  - by intros ?%elem_of_nil.
  - destruct (sendDisabled st); simpl; [by intros ?%elem_of_nil|].
    unfold sendMessage. destruct (negb _); simpl; [by intros ?%elem_of_nil|].
    destruct reply; simpl; intros ->%list_elem_of_singleton; eauto.
  - rewrite loadMessages_requests. intros ->%list_elem_of_singleton. by left.
Qed.

End Polling.

(** C7: mounting the chat registers exactly one timer, [loadMessages]
    every 5000 ms, next to the two initial fetches; in virtual time the
    [k]-th poll after the mount at [t0] is due at
    [t0 + 5000 * (k + 1)]; every poll issues the same single request,
    [GET /api/groups/{id}/messages] for the group of the screen,
    whatever the state; a resolved poll replaces the local list with
    the answer and keeps the rest of the state, a rejected one changes
    nothing; and every request of the mounted screen is a plain [GET]
    or [POST] of that path. *)
Theorem chat_polls_every_five_seconds (gid : string) :
  GroupChat.intervals (GroupChat.mount gid) = [(CbLoadMessages, 5000%N)] ∧
  requests (GroupChat.mount gid) =
    [ApiGet ("/api/groups/" +:+ gid);
     ApiGet ("/api/groups/" +:+ gid +:+ "/messages")] ∧
  (∀ st reply,
     requests (GroupChat.loadMessages gid st reply).2 =
       [ApiGet ("/api/groups/" +:+ gid +:+ "/messages")]) ∧
  (∀ st msgs,
     (GroupChat.loadMessages gid st (Resolved msgs)).1 =
       {| GroupChat.group := GroupChat.group st;
          GroupChat.messages := msgs;
          GroupChat.newMessage := GroupChat.newMessage st;
          GroupChat.loading := GroupChat.loading st;
          GroupChat.sending := GroupChat.sending st |}) ∧
  (∀ st d, (GroupChat.loadMessages gid st (Rejected d)).1 = st) ∧
  (∀ t0 st replies,
     length (GroupChat.polling gid t0 st replies).2 = length replies) ∧
  (∀ t0 st replies k t es,
     (GroupChat.polling gid t0 st replies).2 !! k = Some (t, es) →
     t = (t0 + 5000 * N.of_nat (S k))%N ∧
     requests es = [ApiGet ("/api/groups/" +:+ gid +:+ "/messages")]) ∧
  (∀ t0 st replies msgs,
     GroupChat.messages
       (GroupChat.polling gid t0 st (replies ++ [Resolved msgs])).1 = msgs) ∧
  (∀ edit st ev r,
     r ∈ requests (GroupChat.step edit gid st ev).2 →
     r = ApiGet ("/api/groups/" +:+ gid +:+ "/messages") ∨
     ∃ c, r = ApiPost ("/api/groups/" +:+ gid +:+ "/messages") (MessageBody c)).
Proof.
  unfold GroupChat.polling. cbn [GroupChat.mount GroupChat.intervals].
  split; [done|]. split; [done|].
  split; [intros st reply; apply loadMessages_requests|].
  split; [done|]. split; [done|].
  split; [intros; apply pollTrace_length|].
  split; [intros t0 st replies k t es Hk; by apply pollTrace_lookup in Hk|].
  split; [intros; apply pollTrace_last|].
  intros edit st ev r. apply step_requests.
Qed.

(** ** Event RSVP: mutual exclusion and capacity *)

Section Rsvp.

Import EventService.

Implicit Types (e : Event) (u v : UserId).

Lemma perform_exclusive c e :
  exclusive e → exclusive (stored e (perform c e)).
Proof.
  unfold exclusive. intros He. destruct c as [u|u]; simpl.
  - unfold attend. destruct (maxParticipants e) as [limit|]; simpl.
    + destruct (_ && _); simpl; [done|set_solver].
    + set_solver.
  - set_solver.
Qed.

Lemma after_exclusive cs e : exclusive e → exclusive (after cs e).
Proof.
  revert e. induction cs as [|c cs IH]; intros e He; simpl; [done|].
  by apply IH, perform_exclusive.
Qed.

(** An accepted [attend] keeps the limit and the earlier attendees and
    adds the caller. *)
Lemma attend_accepted u e e' :
  attend u e = inr e' →
  maxParticipants e' = maxParticipants e ∧
  attendees e' = {[u]} ∪ attendees e.
Proof.
  unfold attend. destruct (maxParticipants e) as [limit|].
  - destruct (_ && _); [done|]. by intros [= <-].
  - by intros [= <-].
Qed.

Lemma attendAll_accepted us e e' :
  attendAll us e = inr e' →
  maxParticipants e' = maxParticipants e ∧
  list_to_set us ⊆ attendees e' ∧ attendees e ⊆ attendees e'.
Proof.
  revert e. induction us as [|u us IH]; intros e; simpl.
  - intros [= <-]. set_solver.
  - destruct (attend u e) as [err|e1] eqn:Hu; [done|].
    apply attend_accepted in Hu as [Hlim Hatt].
    intros (Hlim' & Hsub1 & Hsub2)%IH. rewrite Hatt in Hsub2.
    split; [congruence|]. set_solver.
Qed.

(** After as many accepted calls by distinct users as the limit allows,
    the event is full. *)
Lemma attendAll_full us e e' k :
  maxParticipants e = Some k → NoDup us → length us = k →
  attendAll us e = inr e' →
  maxParticipants e' = Some k ∧ k ≤ size (attendees e').
Proof.
  intros Hk Hnd Hlen (Hlim & Hsub & _)%attendAll_accepted.
  split; [congruence|].
  rewrite <- Hlen, <- (size_list_to_set (C := gset UserId) us Hnd).
  by apply subseteq_size.
Qed.

Lemma attend_full_new v e k :
  maxParticipants e = Some k → k ≤ size (attendees e) → v ∉ attendees e →
  attend v e = inl Capacity.
Proof.
  intros Hk Hfull Hv. unfold attend. rewrite Hk.
  by rewrite !bool_decide_eq_true_2.
Qed.

(** A repeated [attend] is accepted whatever the limit, and the set of
    attendees is the same set. *)
Lemma attend_again v e :
  v ∈ attendees e →
  ∃ e', attend v e = inr e' ∧ attendees e' = attendees e ∧
        maxParticipants e' = maxParticipants e ∧
        declined e' = declined e ∖ {[v]}.
Proof.
  intros Hv. unfold attend.
  assert (Hneg : bool_decide (v ∉ attendees e) = false).
  { by apply bool_decide_eq_false_2; intros []. }
  assert (Hsame : {[v]} ∪ attendees e = attendees e) by set_solver.
  destruct (maxParticipants e) as [limit|];
    rewrite ?Hneg, ?andb_false_r; eexists; (split; [reflexivity|]); simpl;
    by rewrite Hsame.
Qed.

Lemma Event_eq e e' :
  maxParticipants e = maxParticipants e' → attendees e = attendees e' →
  declined e = declined e' → e = e'.
Proof. destruct e, e'; simpl; by intros -> -> ->. Qed.

End Rsvp.

(** ** Attendance status on the client *)

Lemma includes_iff (l : list string) (x : string) : includes l x = true ↔ x ∈ l.
Proof.
  induction l as [|y l IH]; simpl.
  - split; [done|]. by intros ?%elem_of_nil.
  - rewrite orb_true_iff, String.eqb_eq, IH, elem_of_cons. naive_solver.
Qed.

Lemma optIncludes_iff (a : option (list string)) (x : string) :
  optIncludes a x = true ↔ ∃ l, a = Some l ∧ x ∈ l.
Proof.
  destruct a as [l|]; simpl.
  - rewrite includes_iff. naive_solver.
  - naive_solver.
Qed.

(** The status of a logged-in user, read off the two arrays. *)
Lemma getAttendanceStatus_cases (u : Auth.User) (event : Events.Event) :
  let attends := ∃ l, Events.attendees event = Some l ∧ Auth.id u ∈ l in
  let declines := ∃ l, Events.declined event = Some l ∧ Auth.id u ∈ l in
  (Events.getAttendanceStatus (Some u) event = "attending" ↔ attends) ∧
  (Events.getAttendanceStatus (Some u) event = "declined" ↔ ¬ attends ∧ declines) ∧
  (Events.getAttendanceStatus (Some u) event = "pending" ↔ ¬ attends ∧ ¬ declines).
Proof.
  intros attends declines. unfold Events.getAttendanceStatus.
  pose proof (optIncludes_iff (Events.attendees event) (Auth.id u)) as Ha.
  pose proof (optIncludes_iff (Events.declined event) (Auth.id u)) as Hd.
  fold attends in Ha. fold declines in Hd. cbn [Auth.userIdOrEmpty].
  assert (Htt : true = true) by done.
  assert (Hft : false = true → False) by done.
  destruct (optIncludes (Events.attendees event) (Auth.id u)),
           (optIncludes (Events.declined event) (Auth.id u));
    (split; [|split]); split; try discriminate; try tauto.
Qed.

(** C2: [attendees] and [declined] stay disjoint through every sequence
    of attend and decline calls, whether the calls succeed or fail,
    hence for every event since its creation; after [attend] followed
    by [decline] the user is in [declined] and not in [attendees].  On
    the client, [getAttendanceStatus] answers 'attending' exactly when
    the user's id is in the [attendees] array, and looks at [declined]
    only otherwise: 'declined' exactly when the id is in [declined] and
    not in [attendees], 'pending' exactly when it is in neither.  For
    arrays that list the two sets of a server event, the sets being
    disjoint, the status is therefore 'declined' exactly when the user
    is in [declined]. *)
Theorem attendees_declined_exclusive :
  (∀ e cs, EventService.attendees e ## EventService.declined e →
     EventService.attendees (EventService.after cs e) ##
     EventService.declined (EventService.after cs e)) ∧
  (∀ limit cs,
     EventService.attendees (EventService.after cs (EventService.create limit)) ##
     EventService.declined (EventService.after cs (EventService.create limit))) ∧
  (∀ e u,
     u ∈ EventService.declined
           (EventService.after [EventService.Attend u; EventService.Decline u] e) ∧
     u ∉ EventService.attendees
           (EventService.after [EventService.Attend u; EventService.Decline u] e)) ∧
  (∀ u event l,
     Events.attendees event = Some l → Auth.id u ∈ l →
     Events.getAttendanceStatus (Some u) event = "attending") ∧
  (∀ u event,
     Events.getAttendanceStatus (Some u) event = "attending" →
     ∃ l, Events.attendees event = Some l ∧ Auth.id u ∈ l) ∧
  (∀ u event,
     Events.getAttendanceStatus (Some u) event = "declined" ↔
     (¬ ∃ l, Events.attendees event = Some l ∧ Auth.id u ∈ l) ∧
     ∃ l, Events.declined event = Some l ∧ Auth.id u ∈ l) ∧
  (∀ u event,
     Events.getAttendanceStatus (Some u) event = "pending" ↔
     (¬ ∃ l, Events.attendees event = Some l ∧ Auth.id u ∈ l) ∧
     (¬ ∃ l, Events.declined event = Some l ∧ Auth.id u ∈ l)) ∧
  (∀ e u event la ld,
     EventService.attendees e ## EventService.declined e →
     Events.attendees event = Some la → Events.declined event = Some ld →
     (∀ x, x ∈ la ↔ x ∈ EventService.attendees e) →
     (∀ x, x ∈ ld ↔ x ∈ EventService.declined e) →
     (Events.getAttendanceStatus (Some u) event = "attending" ↔
        Auth.id u ∈ EventService.attendees e) ∧
     (Events.getAttendanceStatus (Some u) event = "declined" ↔
        Auth.id u ∈ EventService.declined e) ∧
     (Events.getAttendanceStatus (Some u) event = "pending" ↔
        (Auth.id u ∉ EventService.attendees e) ∧
        (Auth.id u ∉ EventService.declined e))).
Proof.
  split; [intros e cs; apply after_exclusive|].
  split.
  { intros limit cs. apply after_exclusive.
    unfold EventService.exclusive. simpl. set_solver. }
  split; [intros e u; simpl; set_solver|].
  split.
  { intros u event l Hl Hin. apply getAttendanceStatus_cases. eauto. }
  split; [intros u event; apply getAttendanceStatus_cases|].
  split; [intros u event; apply getAttendanceStatus_cases|].
  split; [intros u event; apply getAttendanceStatus_cases|].
  intros e u event la ld Hdisj Hla Hld Ha Hd.
  destruct (getAttendanceStatus_cases u event) as (Hatt & Hdec & Hpen).
  assert (HA : (∃ l, Events.attendees event = Some l ∧ Auth.id u ∈ l) ↔
               Auth.id u ∈ EventService.attendees e).
  { rewrite Hla. split.
    - intros (l & [= <-] & Hin). by apply Ha.
    - intros Hin. exists la. split; [done|]. by apply Ha. }
  assert (HD : (∃ l, Events.declined event = Some l ∧ Auth.id u ∈ l) ↔
               Auth.id u ∈ EventService.declined e).
  { rewrite Hld. split.
    - intros (l & [= <-] & Hin). by apply Hd.
    - intros Hin. exists ld. split; [done|]. by apply Hd. }
  rewrite Hatt, Hdec, Hpen, HA, HD.
  split; [done|]. split; [|done].
  split; [tauto|]. intros Hin. split; [|done]. set_solver.
Qed.

(** C3: take an event with [maxParticipants = k] and [k] accepted
    [attend] calls by distinct users.  Then an [attend] by a user who is
    not among the attendees fails with [Capacity] and the stored event
    is unchanged, while an [attend] by a user who is among them is
    accepted, leaves the set of attendees and its size as they were,
    and, the two sets being disjoint, leaves the whole event as it
    was. *)
Theorem attend_capacity (e e' : EventService.Event) (k : nat)
    (us : list EventService.UserId) :
  EventService.maxParticipants e = Some k →
  NoDup us → length us = k →
  EventService.attendAll us e = inr e' →
  (∀ v, v ∉ EventService.attendees e' →
     EventService.attend v e' = inl EventService.Capacity ∧
     EventService.stored e' (EventService.attend v e') = e') ∧
  (∀ v, v ∈ EventService.attendees e' →
     ∃ e'', EventService.attend v e' = inr e'' ∧
            EventService.attendees e'' = EventService.attendees e' ∧
            size (EventService.attendees e'') = size (EventService.attendees e') ∧
            (EventService.attendees e' ## EventService.declined e' → e'' = e')).
Proof.
  intros Hk Hnd Hlen Hall.
  destruct (attendAll_full us e e' k Hk Hnd Hlen Hall) as [Hk' Hfull].
  split.
  - intros v Hv. rewrite (attend_full_new v e' k Hk' Hfull Hv). done.
  - intros v Hv.
    destruct (attend_again v e' Hv) as (e'' & Hatt & Hsame & Hlim & Hdec).
    exists e''. repeat split; try done.
    + by rewrite Hsame.
    + intros Hdisj. apply Event_eq; try done. rewrite Hdec. set_solver.
Qed.

(** ** Worked instances *)

(** With a limit of 0 and one attendee the list screen shows no free
    spots value at all, where [max_participants - attendees] would be
    [-1]. *)
Lemma spotsLeft_zero_limit_counterexample :
  Events.max_participants (Samples.listed (Some 0%Z) ["anna"]) = Some 0%Z ∧
  Events.spotsLeft (Samples.listed (Some 0%Z) ["anna"]) = None ∧
  Events.spotsLeft (Samples.listed (Some 0%Z) ["anna"]) ≠
    Some (0 - lengthOr0 (Events.attendees (Samples.listed (Some 0%Z) ["anna"])))%Z ∧
  EventDetail.spotsLeft (Samples.detailed (Some 0%Z) ["anna"]) = None.
Proof. repeat split; done. Qed.

(** Past [2^53] the subtraction rounds: a limit of [2^53 + 2] with one
    attendee shows [2^53], where the exact difference is [2^53 + 1]. *)
Lemma spotsLeft_rounds_past_safe_range :
  Events.spotsLeft (Samples.listed (Some 9007199254740994%Z) ["anna"]) =
    Some 9007199254740992%Z ∧
  EventDetail.spotsLeft (Samples.detailed (Some 9007199254740994%Z) ["anna"]) =
    Some 9007199254740992%Z ∧
  (9007199254740994 - lengthOr0 (Some ["anna"]) = 9007199254740993)%Z.
Proof. repeat split; vm_compute; reflexivity. Qed.

(** Two places and three attendees: one spot short on both screens. *)
Lemma spotsLeft_exact_witness :
  Events.spotsLeft (Samples.listed (Some 2%Z) ["anna"; "ben"; "carla"]) =
    Some (-1)%Z ∧
  EventDetail.spotsLeft (Samples.detailed (Some 2%Z) ["anna"; "ben"; "carla"]) =
    Some (-1)%Z ∧
  (∃ v, Events.spotsLeft (Samples.listed (Some 2%Z) ["anna"; "ben"; "carla"]) =
          Some v ∧ (v < 0)%Z) ∧
  Events.spotsLeft (Samples.listed None ["anna"]) = None.
Proof.
  destruct (spotsLeft_exact (Samples.listed (Some 2%Z) ["anna"; "ben"; "carla"])
              (Samples.detailed (Some 2%Z) ["anna"; "ben"; "carla"]))
    as (Hlist & Hdetail & _ & _).
  destruct (spotsLeft_exact (Samples.listed None ["anna"])
              (Samples.detailed None ["anna"]))
    as (_ & _ & Hnone & _).
  destruct (Hlist 2%Z) as [_ Hl]; [reflexivity|lia|].
  destruct (Hdetail 2%Z) as [_ Hd]; [reflexivity|lia|].
  destruct Hl as [Hlv Hlneg]; [lia|simpl; lia|].
  destruct Hd as [Hdv _]; [lia|simpl; lia|].
  split; [exact Hlv|]. split; [exact Hdv|]. split.
  - apply Hlneg. simpl. lia.
  - apply Hnone. left. reflexivity.
Defined.

Lemma sendMessage_nonempty_bounded_witness :
  GroupChat.sendMessage "g1" Samples.blankDraft (Rejected None) =
    (Samples.blankDraft, []) ∧
  1 ≤ length (lit "hi") ≤ 1000.
Proof.
  destruct (sendMessage_nonempty_bounded "g1" Samples.blankDraft (Rejected None))
    as (Hblank & _ & _ & _ & Hposted).
  split.
  - apply Hblank. reflexivity.
  - apply (Hposted Samples.truncating) with
      (evs := [GroupChat.EvChangeText (lit " hi ");
               GroupChat.EvPressSend (Resolved Samples.hello)])
      (url := GroupChat.messagesUrl "g1").
    + intros n typed. simpl. rewrite length_take. lia.
    + vm_compute. left.
Defined.

Lemma handleCreate_validates_witness :
  ((CreateEvent.handleCreate Samples.slashDate (Resolved "e9")).1 =
     Samples.slashDate ∧
   requests (CreateEvent.handleCreate Samples.slashDate (Resolved "e9")).2 = []) ∧
  body_date (CreateEvent.eventBody Samples.goodForm) = lit "2025-07-15".
Proof.
  split.
  - apply (handleCreate_validates Samples.slashDate (Resolved "e9")).
    right. reflexivity.
  - destruct (handleCreate_validates Samples.goodForm (Resolved "e9"))
      as [_ Hsent].
    destruct (Hsent (ApiPost "/api/events"
                       (EventBodyOf (CreateEvent.eventBody Samples.goodForm))))
      as (_ & _ & Hdate & _).
    + vm_compute. left.
    + exact Hdate.
Defined.

Lemma markAsRead_frame_witness :
  (Notifications.markAsRead "n9" Samples.inbox (Resolved ())).1 = Samples.inbox ∧
  ∃ n', (Notifications.markAsRead "n1" Samples.inbox (Resolved ())).1 !! 0 = Some n' ∧
        Notifications.read n' = true ∧
        Notifications.message n' = "Neue Nachricht".
Proof.
  split.
  - apply (markAsRead_frame "n9" Samples.inbox).
    intros n Hn. unfold Samples.inbox in Hn.
    repeat (apply elem_of_cons in Hn as [-> | Hn]); try discriminate.
    by apply elem_of_nil in Hn.
  - destruct (markAsRead_frame "n1" Samples.inbox) as (_ & Hframe & _).
    destruct (Hframe 0 (Samples.note "n1" false) eq_refl)
      as (n' & Hk & _ & _ & Hmsg & _ & _ & _ & Hread & _).
    exists n'. split; [exact Hk|]. split; [by apply Hread|exact Hmsg].
Defined.

Lemma renderMember_never_self_witness :
  Members.disabled (Members.renderMember (Some Samples.admin) Samples.admin) = true ∧
  Members.rowOnPress (Members.renderMember (Some Samples.admin) Samples.admin) = None ∧
  Members.press (Members.renderMember (Some Samples.admin) Samples.admin) = None ∧
  Members.rowRequests (Some Samples.admin) Samples.admin (Resolved ()) = [].
Proof.
  apply (renderMember_never_self Samples.admin Samples.admin (Resolved ())).
  reflexivity.
Defined.

Lemma chat_polls_every_five_seconds_witness :
  (10000 = 0 + 5000 * N.of_nat 2)%N ∧
  requests [Request (ApiGet "/api/groups/g1/messages")] =
    [ApiGet ("/api/groups/" +:+ "g1" +:+ "/messages")].
Proof.
  destruct (chat_polls_every_five_seconds "g1")
    as (_ & _ & _ & _ & _ & _ & Hk & _).
  apply (Hk 0%N GroupChat.initial [Rejected None; Resolved [Samples.hello]] 1).
  reflexivity.
Defined.

Lemma attendees_declined_exclusive_witness :
  EventService.attendees
    (EventService.after [EventService.Attend "carla"; EventService.Decline "anna"]
       Samples.fullEvent) ##
  EventService.declined
    (EventService.after [EventService.Attend "carla"; EventService.Decline "anna"]
       Samples.fullEvent) ∧
  Events.getAttendanceStatus (Some Samples.admin)
    (Samples.listed None ["u2"; "u1"]) = "attending" ∧
  (Events.getAttendanceStatus (Some Samples.guest)
     (Samples.listed None ["u2"; "u1"]) = "pending").
Proof.
  destruct attendees_declined_exclusive
    as (Hinv & _ & _ & Hatt & _ & _ & Hpen & _).
  split; [|split].
  - apply Hinv. apply (bool_decide_unpack _). vm_compute. exact I.
  - apply (Hatt Samples.admin _ ["u2"; "u1"]); [reflexivity|].
    apply (bool_decide_unpack _). vm_compute. exact I.
  - apply Hpen. split.
    + intros (l & [= <-] & Hin). revert Hin.
      apply (bool_decide_unpack _). vm_compute. exact I.
    + intros (l & [= <-] & Hin). by apply elem_of_nil in Hin.
Defined.

Lemma attend_capacity_witness :
  (EventService.attend "carla" Samples.fullEvent = inl EventService.Capacity ∧
   EventService.stored Samples.fullEvent
     (EventService.attend "carla" Samples.fullEvent) = Samples.fullEvent) ∧
  ∃ e'', EventService.attend "anna" Samples.fullEvent = inr e'' ∧
         EventService.attendees e'' = EventService.attendees Samples.fullEvent.
Proof.
  assert (Hnd : NoDup ["anna"; "ben"]).
  { apply (bool_decide_unpack _). vm_compute. exact I. }
  destruct (attend_capacity (EventService.create (Some 2)) Samples.fullEvent 2
              ["anna"; "ben"] eq_refl Hnd eq_refl eq_refl) as [Hnew Hold].
  split.
  - apply Hnew. apply (bool_decide_unpack _). vm_compute. exact I.
  - destruct (Hold "anna") as (e'' & Hatt & Hsame & _).
    + apply (bool_decide_unpack _). vm_compute. exact I.
    + exists e''. split; [exact Hatt|exact Hsame].
Defined.

(** * Further properties of the client *)

(** ** Trimmed text is in normal form *)

Section TrimNormalForm.

Implicit Types s : jsstring.

(** [trimStart] removes a prefix. *)
Lemma trimStart_suffix s : ∃ p, s = p ++ trimStart s.
Proof.
  induction s as [|c s [p IH]]; simpl; [by exists []|].
  destruct (isWhiteSpace c); [|by exists []].
  exists (c :: p). simpl. by f_equal.
Qed.

(** A trimmed string is empty, or starts and ends with code units that
    are not white space. *)
Lemma trim_shape s :
  trim s = [] ∨
  ∃ c r d, trim s = c :: r ∧ last (trim s) = Some d ∧
           isWhiteSpace c = false ∧ isWhiteSpace d = false.
Proof.
  unfold trim, trimEnd.
  destruct (trimStart s) as [|c r] eqn:Ha; [by left|right].
  pose proof (trimStart_head _ _ _ Ha) as Hc.
  destruct (trimStart (rev (c :: r))) as [|d t] eqn:Hb.
  { simpl in Hb. by apply trimStart_snoc with (s := rev r) in Hc. }
  pose proof (trimStart_head _ _ _ Hb) as Hd.
  destruct (trimStart_suffix (rev (c :: r))) as [p Hp]. rewrite Hb in Hp.
  apply (f_equal (@rev N)) in Hp. rewrite rev_involutive, rev_app_distr in Hp.
  destruct (rev (d :: t)) as [|c' r'] eqn:Hrev.
  { by apply rev_nil_inv in Hrev. }
  simpl in Hp. injection Hp as <- _.
  exists c, r', d. repeat split; try done.
  rewrite <- Hrev. simpl. by rewrite last_snoc.
Qed.

Lemma trim_idemp s : trim (trim s) = trim s.
Proof.
  destruct (trim_shape s) as [-> | (c & r & d & Hs & Hlast & Hc & Hd)]; [done|].
  by eapply trim_id.
Qed.

(** [x.trim() || null] is [null] or a non-empty trimmed string. *)
Lemma orNull_trim s t :
  orNull (trim s) = Some t → t ≠ [] ∧ trim t = t ∧ length t ≤ length s.
Proof.
  unfold orNull. destruct (trim s) as [|c r] eqn:Hs; simpl; [done|].
  intros [= <-]. rewrite <- Hs. split; [by rewrite Hs|].
  split; [apply trim_idemp|apply trim_length].
Qed.

End TrimNormalForm.

(** X1: every text of the body that [handleCreate] posts is trimmed: the
    title and the date are their own trim, and description, time and
    location are either [null] or a non-empty string that is its own
    trim, so that a field left blank or filled with white space is sent
    as [null], never as an empty string. *)
Theorem eventBody_trimmed (st : CreateEvent.State) :
  trim (body_title (CreateEvent.eventBody st)) = body_title (CreateEvent.eventBody st) ∧
  trim (body_date (CreateEvent.eventBody st)) = body_date (CreateEvent.eventBody st) ∧
  (∀ t, body_description (CreateEvent.eventBody st) = Some t ∨
        body_time (CreateEvent.eventBody st) = Some t ∨
        body_location (CreateEvent.eventBody st) = Some t →
        t ≠ [] ∧ trim t = t) ∧
  (forallb isWhiteSpace (CreateEvent.description st) = true →
     body_description (CreateEvent.eventBody st) = None) ∧
  (forallb isWhiteSpace (CreateEvent.time st) = true →
     body_time (CreateEvent.eventBody st) = None) ∧
  (forallb isWhiteSpace (CreateEvent.location st) = true →
     body_location (CreateEvent.eventBody st) = None).
Proof.
  simpl. repeat split; try apply trim_idemp.
  - destruct H as [H | [H | H]]; by apply orNull_trim in H as (? & ? & ?).
  - destruct H as [H | [H | H]]; by apply orNull_trim in H as (? & ? & ?).
  - by intros ->%trim_nil_iff.
  - by intros ->%trim_nil_iff.
  - by intros ->%trim_nil_iff.
Qed.

(** ** Notifications: pressing, counting, composing *)

Section InboxFacts.

Import Notifications Inbox.

Lemma marked_cons i n ns :
  marked i (n :: ns) =
  (if String.eqb (id n) i then withRead n else n) :: marked i ns.
Proof. reflexivity. Qed.

Lemma unreadCount_cons n ns :
  unreadCount (n :: ns) = (if read n then 0 else 1) + unreadCount ns.
Proof. unfold unreadCount. simpl. by destruct (read n). Qed.

(** The unread notifications that carry the id [i]. *)
Lemma unreadCount_marked i ns :
  unreadCount (marked i ns) +
    length (List.filter (λ n, negb (read n) && String.eqb (id n) i) ns)
  = unreadCount ns.
Proof.
  induction ns as [|n ns IH]; [done|].
  rewrite marked_cons, !unreadCount_cons. simpl List.filter.
  destruct (String.eqb (id n) i), (read n); simpl; lia.
Qed.

Lemma no_unread_with_id i ns :
  (∀ n, n ∈ ns → id n ≠ i) →
  List.filter (λ n, negb (read n) && String.eqb (id n) i) ns = [].
Proof.
  induction ns as [|n ns IH]; intros Hfresh; simpl; [done|].
  destruct (String.eqb_spec (id n) i) as [Heq|Hne].
  - exfalso. apply (Hfresh n); [left|done].
  - rewrite andb_false_r. apply IH. intros m Hm. apply Hfresh. by right.
Qed.

Lemma one_unread_with_id i n ns :
  NoDup (map id ns) → n ∈ ns → id n = i → read n = false →
  length (List.filter (λ m, negb (read m) && String.eqb (id m) i) ns) = 1.
Proof.
  induction ns as [|m ns IH]; simpl; intros Hnd Hin Hid Hread.
  { by apply elem_of_nil in Hin. }
  apply NoDup_cons in Hnd as [Hm Hnd].
  apply elem_of_cons in Hin as [<- | Hin].
  - rewrite Hread, Hid, String.eqb_refl. simpl. f_equal.
    rewrite no_unread_with_id; [done|].
    intros k Hk Hki. apply Hm. rewrite Hid, <- Hki.
    apply list_elem_of_In, in_map, list_elem_of_In, Hk.
  - destruct (String.eqb_spec (id m) i) as [Heq|Hne].
    + exfalso. apply Hm. rewrite Heq, <- Hid.
      apply list_elem_of_In, in_map, list_elem_of_In, Hin.
    + rewrite andb_false_r. by apply IH.
Qed.

Lemma marked_comm i j ns : marked i (marked j ns) = marked j (marked i ns).
Proof.
  induction ns as [|n ns IH]; [done|].
  rewrite !marked_cons, IH. f_equal.
  destruct (String.eqb (id n) j) eqn:Hj, (String.eqb (id n) i) eqn:Hi;
    simpl; rewrite ?Hi, ?Hj; done.
Qed.

Lemma marked_idemp i ns : marked i (marked i ns) = marked i ns.
Proof.
  induction ns as [|n ns IH]; [done|].
  rewrite !marked_cons, IH. f_equal.
  destruct (String.eqb (id n) i) eqn:Hi; simpl; by rewrite Hi.
Qed.

Lemma allMarked_marked i ns : allMarked (marked i ns) = allMarked ns.
Proof.
  induction ns as [|n ns IH]; [done|].
  rewrite marked_cons. unfold allMarked in *. simpl in *. rewrite IH. f_equal.
  by destruct (String.eqb (id n) i).
Qed.

Lemma marked_allMarked i ns : marked i (allMarked ns) = allMarked ns.
Proof.
  induction ns as [|n ns IH]; [done|].
  unfold allMarked, marked in *. simpl in *. rewrite IH. f_equal.
  by destruct (String.eqb (id n) i).
Qed.

Lemma markAllButton_iff ns :
  markAllButton ns = true ↔ ∃ n, n ∈ ns ∧ read n = false.
Proof.
  unfold markAllButton. rewrite Nat.ltb_lt.
  induction ns as [|n ns IH].
  - split; [unfold unreadCount; simpl; lia|].
    intros (n & Hn & _). by apply elem_of_nil in Hn.
  - rewrite unreadCount_cons. destruct (read n) eqn:Hr.
    + simpl. rewrite IH. split.
      * intros (m & Hm & Hmr). exists m. split; [by right|done].
      * intros (m & [-> | Hm]%elem_of_cons & Hmr); [congruence|eauto].
    + split; [|lia]. intros _. exists n. split; [left|done].
Qed.

End InboxFacts.

(** X2: pressing a notification issues exactly one request, the
    mark-read of that notification, whatever the answer, and leaves the
    list as [markAsRead] leaves it; the navigation follows the request
    without waiting for the answer and goes to the group whenever
    [group_id] is non-empty (also when [event_id] is set), to the event
    when only [event_id] is non-empty, and nowhere otherwise. *)
Theorem handleNotificationPress_routes (n : Notifications.Notification)
    (ns : list Notifications.Notification) (reply : Reply unit) :
  (Inbox.handleNotificationPress n ns reply).1 =
    (Notifications.markAsRead (Notifications.id n) ns reply).1 ∧
  requests (Inbox.handleNotificationPress n ns reply).2 =
    [ApiPut ("/api/notifications/" +:+ Notifications.id n +:+ "/read")] ∧
  (∃ later,
     (Inbox.handleNotificationPress n ns reply).2 =
       Request (ApiPut ("/api/notifications/" +:+ Notifications.id n +:+ "/read"))
         :: Inbox.destination n ++ later ∧ requests later = []) ∧
  (∀ g, Notifications.group_id n = Some g → g ≠ "" →
     Inbox.destination n = [RouterPush ("/group/" +:+ g)]) ∧
  (∀ e, truthyField (Notifications.group_id n) = false →
     Notifications.event_id n = Some e → e ≠ "" →
     Inbox.destination n = [RouterPush ("/event/" +:+ e)]) ∧
  (truthyField (Notifications.group_id n) = false →
   truthyField (Notifications.event_id n) = false →
     Inbox.destination n = []).
Proof.
  assert (Hnav : requests (Inbox.destination n) = []).
  { unfold Inbox.destination. by repeat destruct (truthyField _). }
  split; [by destruct reply|]. split; [|split].
  - destruct reply; simpl; rewrite requests_app, Hnav; done.
  - destruct reply; simpl; eexists; (split; [reflexivity|done]).
  - unfold Inbox.destination. repeat split.
    + intros g -> Hg. by destruct g.
    + intros e -> -> He. by destruct e.
    + by intros -> ->.
Qed.

(** X3: marking one notification as read lowers [unreadCount] by the
    number of unread notifications carrying that id: by exactly one when
    ids are unique and the notification was unread, by nothing when the
    id is absent; and the mark-all button is shown exactly while some
    notification is unread. *)
Theorem markAsRead_unreadCount (i : string) (ns : list Notifications.Notification) :
  Notifications.unreadCount (Notifications.markAsRead i ns (Resolved ())).1 +
    length (List.filter
              (λ n, negb (Notifications.read n) && String.eqb (Notifications.id n) i) ns)
  = Notifications.unreadCount ns ∧
  (∀ n, NoDup (map Notifications.id ns) → n ∈ ns →
        Notifications.id n = i → Notifications.read n = false →
     Notifications.unreadCount (Notifications.markAsRead i ns (Resolved ())).1 + 1
     = Notifications.unreadCount ns) ∧
  ((∀ n, n ∈ ns → Notifications.id n ≠ i) →
     Notifications.unreadCount (Notifications.markAsRead i ns (Resolved ())).1
     = Notifications.unreadCount ns) ∧
  (Notifications.markAllButton ns = true ↔
     ∃ n, n ∈ ns ∧ Notifications.read n = false).
Proof.
  pose proof (unreadCount_marked i ns) as Hcount. unfold Inbox.marked in Hcount.
  split; [exact Hcount|]. split; [|split].
  - intros n Hnd Hin Hid Hread.
    by rewrite <- Hcount, (one_unread_with_id i n ns Hnd Hin Hid Hread).
  - intros Hfresh. rewrite (no_unread_with_id i ns Hfresh) in Hcount.
    cbn [length] in Hcount. lia.
  - apply markAllButton_iff.
Qed.

(** X4: resolved read-state operations compose as marks do: marking two
    notifications commutes, marking one twice is the same as once, and
    mark-all absorbs single marks on either side. *)
Theorem read_marks_compose (i j : string) (ns : list Notifications.Notification) :
  (Notifications.markAsRead i
     (Notifications.markAsRead j ns (Resolved ())).1 (Resolved ())).1 =
  (Notifications.markAsRead j
     (Notifications.markAsRead i ns (Resolved ())).1 (Resolved ())).1 ∧
  (Notifications.markAsRead i
     (Notifications.markAsRead i ns (Resolved ())).1 (Resolved ())).1 =
  (Notifications.markAsRead i ns (Resolved ())).1 ∧
  (Notifications.markAllAsRead
     (Notifications.markAsRead i ns (Resolved ())).1 (Resolved ())).1 =
  (Notifications.markAllAsRead ns (Resolved ())).1 ∧
  (Notifications.markAsRead i
     (Notifications.markAllAsRead ns (Resolved ())).1 (Resolved ())).1 =
  (Notifications.markAllAsRead ns (Resolved ())).1.
Proof.
  split; [apply marked_comm|]. split; [apply marked_idemp|].
  split; [apply allMarked_marked|apply marked_allMarked].
Qed.

(** ** Attendance: the list badge and the detail buttons *)

(** X5: for one event seen on both screens, the badge of the list and
    the buttons of the detail screen agree: the badge reads 'attending'
    exactly when the attend button is active, 'declined' exactly when
    only the decline button is, 'pending' exactly when neither is; the
    attend button is active exactly when the [attendees] array is there
    and holds the user's id (the empty id when nobody is logged in). *)
Theorem attendance_views_agree (user : option Auth.User)
    (item : Events.Event) (event : EventDetail.Event) :
  Events.attendees item = EventDetail.attendees event →
  Events.declined item = EventDetail.declined event →
  (Events.getAttendanceStatus user item = "attending" ↔
     EventDetail.isAttending user event = true) ∧
  (Events.getAttendanceStatus user item = "declined" ↔
     EventDetail.isAttending user event = false ∧
     EventDetail.isDeclined user event = true) ∧
  (Events.getAttendanceStatus user item = "pending" ↔
     EventDetail.isAttending user event = false ∧
     EventDetail.isDeclined user event = false) ∧
  (EventDetail.isAttending user event = true ↔
     ∃ l, EventDetail.attendees event = Some l ∧ Auth.userIdOrEmpty user ∈ l) ∧
  (Events.attendees item = None → Events.declined item = None →
     Events.getAttendanceStatus user item = "pending").
Proof.
  intros Ha Hd.
  unfold Events.getAttendanceStatus, EventDetail.isAttending, EventDetail.isDeclined.
  rewrite <- Ha, <- Hd.
  pose proof (optIncludes_iff (Events.attendees item) (Auth.userIdOrEmpty user)) as Hmem.
  destruct (optIncludes (Events.attendees item) (Auth.userIdOrEmpty user)),
           (optIncludes (Events.declined item) (Auth.userIdOrEmpty user)) eqn:Ed;
    (split; [|split; [|split; [|split]]]); try exact Hmem; try naive_solver.
  all: intros Hna Hnd; rewrite Hnd in Ed; discriminate.
Qed.

(** ** Member counters *)

Section Counters.

Import Auth MemberStats.

Lemma countRole_two (r1 r2 : string) (members : list User) :
  r1 ≠ r2 → countRole r1 members + countRole r2 members ≤ length members.
Proof.
  intros Hne. unfold countRole.
  induction members as [|m members IH]; simpl; [lia|].
  destruct (String.eqb_spec (role m) r1) as [H1|H1],
           (String.eqb_spec (role m) r2) as [H2|H2]; simpl; try lia.
  congruence.
Qed.

Lemma countRole_zero (r : string) (members : list User) :
  countRole r members = 0 ↔ ∀ m, m ∈ members → role m ≠ r.
Proof.
  unfold countRole. induction members as [|m members IH]; simpl.
  - split; [|done]. by intros _ m ?%elem_of_nil.
  - destruct (String.eqb_spec (role m) r) as [Heq|Hne]; simpl.
    + split; [lia|]. intros H. exfalso. apply (H m); [left|done].
    + rewrite IH. split.
      * intros H k [-> | Hk]%elem_of_cons; auto.
      * intros H k Hk. apply H. by right.
Qed.

End Counters.

(** X6: the counters above the member list are consistent: admins and
    trainers together never exceed the total, a counter is 0 exactly
    when no listed member has that role, and the count over a list put
    together from two is the sum of the two counts. *)
Theorem member_counters_consistent (members : list Auth.User) :
  MemberStats.admins members + MemberStats.trainers members ≤
    MemberStats.total members ∧
  (MemberStats.admins members = 0 ↔
     ∀ m, m ∈ members → Auth.role m ≠ "admin") ∧
  (MemberStats.trainers members = 0 ↔
     ∀ m, m ∈ members → Auth.role m ≠ "trainer") ∧
  (∀ more, MemberStats.admins (members ++ more) =
           MemberStats.admins members + MemberStats.admins more).
Proof.
  split; [by apply countRole_two|]. split; [apply countRole_zero|].
  split; [apply countRole_zero|].
  intros more. unfold MemberStats.admins, MemberStats.countRole.
  by rewrite List.filter_app, length_app.
Qed.

(** ** The group chat: one press, one message *)

Section SendOnce.

Import GroupChat.

Variable edit : option nat → jsstring → jsstring.
Variable gid : string.

Lemma sendDisabled_false st :
  sendDisabled st = false → truthy (trim (newMessage st)) = true ∧ sending st = false.
Proof.
  unfold sendDisabled. intros [H1 H2]%orb_false_elim.
  by apply negb_false_iff in H1.
Qed.

Lemma press_enabled st reply :
  sendDisabled st = false →
  requests (step edit gid st (EvPressSend reply)).2 =
    [ApiPost (messagesUrl gid) (MessageBody (trim (newMessage st)))].
Proof.
  intros Hen. pose proof (sendDisabled_false st Hen) as [Ht _].
  simpl. rewrite Hen. unfold sendMessage. rewrite Ht. by destruct reply.
Qed.

Lemma press_resolved st m :
  sendDisabled st = false →
  (step edit gid st (EvPressSend (Resolved m))).1 =
    {| group := group st; messages := messages st ++ [m]; newMessage := [];
       loading := loading st; sending := false |}.
Proof.
  intros Hen. pose proof (sendDisabled_false st Hen) as [Ht _].
  simpl. rewrite Hen. unfold sendMessage. by rewrite Ht.
Qed.

Lemma press_rejected st d :
  sendDisabled st = false →
  (step edit gid st (EvPressSend (Rejected d))).1 = st.
Proof.
  intros Hen. pose proof (sendDisabled_false st Hen) as [Ht Hs].
  simpl. rewrite Hen. unfold sendMessage. rewrite Ht. simpl.
  destruct st; simpl in *. by rewrite Hs.
Qed.

End SendOnce.

(** X7: a press on the enabled send button posts the trimmed draft
    exactly once, a press on the disabled one does nothing.  When the
    post resolves, the server's message is appended at the end of the
    list and the draft is emptied, so that pressing again sends nothing;
    when it is rejected, list and draft are left as they were, so that
    pressing again posts the same content. *)
Theorem send_once (edit : option nat → jsstring → jsstring) (gid : string)
    (st : GroupChat.State) :
  (GroupChat.sendDisabled st = true →
     ∀ reply, GroupChat.step edit gid st (GroupChat.EvPressSend reply) = (st, [])) ∧
  (GroupChat.sendDisabled st = false →
     (∀ reply,
        requests (GroupChat.step edit gid st (GroupChat.EvPressSend reply)).2 =
          [ApiPost (GroupChat.messagesUrl gid)
             (MessageBody (trim (GroupChat.newMessage st)))]) ∧
     (∀ m reply,
        GroupChat.messages
          (GroupChat.step edit gid st (GroupChat.EvPressSend (Resolved m))).1 =
          GroupChat.messages st ++ [m] ∧
        GroupChat.newMessage
          (GroupChat.step edit gid st (GroupChat.EvPressSend (Resolved m))).1 = [] ∧
        (GroupChat.run edit gid st
           [GroupChat.EvPressSend (Resolved m); GroupChat.EvPressSend reply]).2 =
          (GroupChat.step edit gid st (GroupChat.EvPressSend (Resolved m))).2) ∧
     (∀ d reply,
        (GroupChat.step edit gid st (GroupChat.EvPressSend (Rejected d))).1 = st ∧
        requests
          (GroupChat.run edit gid st
             [GroupChat.EvPressSend (Rejected d); GroupChat.EvPressSend reply]).2 =
          [ApiPost (GroupChat.messagesUrl gid)
             (MessageBody (trim (GroupChat.newMessage st)));
           ApiPost (GroupChat.messagesUrl gid)
             (MessageBody (trim (GroupChat.newMessage st)))])).
Proof.
  split.
  - intros Hdis reply. simpl. by rewrite Hdis.
  - intros Hen. split; [|split].
    + intros reply. by apply press_enabled.
    + intros m reply.
      pose proof (press_resolved edit gid st m Hen) as Hst.
      rewrite Hst. repeat split; try done.
      cbn [GroupChat.run].
      destruct (GroupChat.step edit gid st (GroupChat.EvPressSend (Resolved m)))
        as [st1 es1] eqn:Hstep.
      simpl in Hst. subst st1. simpl. by rewrite app_nil_r.
    + intros d reply.
      pose proof (press_rejected edit gid st d Hen) as Hst.
      pose proof (press_enabled edit gid st (Rejected d) Hen) as Hreq1.
      pose proof (press_enabled edit gid st reply Hen) as Hreq2.
      split; [done|]. cbn [GroupChat.run].
      destruct (GroupChat.step edit gid st (GroupChat.EvPressSend (Rejected d)))
        as [st1 es1] eqn:Hstep.
      simpl in Hst, Hreq1. subst st1.
      destruct (GroupChat.step edit gid st (GroupChat.EvPressSend reply))
        as [st2 es2] eqn:Hstep2.
      simpl in Hreq2. simpl. by rewrite app_nil_r, requests_app, Hreq1, Hreq2.
Qed.

(** ** The group chat: date separators *)

(** X8: in the rendered chat every message stands under a date
    separator that carries its own date: at or before it there is a row
    that shows the separator, and from that row up to the message all
    rows format to the same date.  The first row always shows it. *)
Theorem message_under_its_date (formatMessageDate : option string → string)
    (messages : list GroupChat.Message) (i : nat) (item : GroupChat.Message) :
  messages !! i = Some item →
  ∃ j first,
    j ≤ i ∧ messages !! j = Some first ∧
    ChatView.showDate formatMessageDate messages j first = true ∧
    ∀ k between, j ≤ k ≤ i → messages !! k = Some between →
      formatMessageDate (Some (GroupChat.created_at between)) =
      formatMessageDate (Some (GroupChat.created_at item)).
Proof.
  revert item. induction i as [|i IH]; intros item Hi.
  - exists 0, item. repeat split; try done.
    intros k between Hk Hbetween. assert (k = 0) as -> by lia. congruence.
  - destruct (ChatView.showDate formatMessageDate messages (S i) item) eqn:Hshow.
    + exists (S i), item. repeat split; try done.
      intros k between Hk Hbetween. assert (k = S i) as -> by lia. congruence.
    + destruct (messages !! i) as [prev|] eqn:Hprev.
      2:{ apply lookup_ge_None in Hprev. apply lookup_lt_Some in Hi. lia. }
      unfold ChatView.showDate in Hshow. cbn [Nat.eqb orb] in Hshow.
      replace (S i - 1) with i in Hshow by lia. rewrite Hprev in Hshow.
      apply negb_false_iff, String.eqb_eq in Hshow. simpl in Hshow.
      destruct (IH prev eq_refl) as (j & first & Hj & Hfirst & Hshown & Hsame).
      exists j, first. repeat split; try done; [lia|].
      intros k between Hk Hbetween.
      destruct (decide (k = S i)) as [-> | Hne]; [congruence|].
      rewrite Hshow. apply (Hsame k); [lia|done].
Qed.

(** ** The session: coherence and persistence *)

Lemma truthyField_Some (s : string) : truthyField (Some s) = true ↔ s ≠ "".
Proof. destruct s; simpl; split; done. Qed.

Lemma truthyField_true (o : option string) :
  truthyField o = true → ∃ s, o = Some s ∧ s ≠ "".
Proof. destruct o as [[|a s]|]; simpl; try done. intros _. by eexists. Qed.

Section SessionFacts.

Import Session.

Variables U P : Type.
Variable stringify : U → string.
Variable parse : string → option U.
Variable merge : U → P → U.

Hypothesis parse_stringify : ∀ u, parse (stringify u) = Some u.

Implicit Types st : State U.

Lemma coherent_initial : coherent stringify (initial (U := U) ∅).
Proof.
  unfold coherent. simpl. repeat split; try done; try (by intros [? ?]).
Qed.

Lemma coherent_login st reply :
  coherent stringify st → coherent stringify (login stringify st reply).
Proof.
  intros Hst. destruct reply as [[t u]|d]; [|done].
  unfold coherent. simpl. repeat split; try done; try (by eexists).
  all: intros; simplify_map_eq; try done; try (by eexists).
Qed.

Lemma coherent_logout st : coherent stringify (logout st).
Proof.
  unfold coherent. simpl. repeat split; try done; try (by intros [? ?]).
  all: intros; simplify_map_eq; try done.
Qed.

Lemma coherent_updateUser st data :
  coherent stringify st → coherent stringify (updateUser stringify merge st data).
Proof.
  intros (Ha & Hb & Hc & Hd & He). unfold updateUser.
  destruct (user st) as [u|] eqn:Hu.
  2:{ unfold coherent. rewrite Hu. done. }
  unfold coherent. simpl. repeat split; try done; try (by eexists).
  all: intros; simplify_map_eq; try done; try (by eexists).
  apply Hb. by eexists.
Qed.

(** Reopening the app needs no more than that the stored user was
    written by [stringify]. *)
Lemma coherent_restart st :
  (∀ s, storage st !! "user" = Some s → ∃ u, s = stringify u) →
  coherent stringify (restart parse st).
Proof.
  intros He. unfold restart, loadStoredAuth. cbn [storage initial].
  destruct (truthyField (storage st !! "token")) eqn:Ht; cbn [andb].
  2:{ unfold coherent. simpl. repeat split; try done; by intros [? ?]. }
  destruct (truthyField (storage st !! "user")) eqn:Hu.
  2:{ unfold coherent. simpl. repeat split; try done; by intros [? ?]. }
  apply truthyField_true in Ht as (t & Ht & _).
  apply truthyField_true in Hu as (s & Hs & _).
  destruct (He s Hs) as [u ->]. rewrite Hs, Ht. simpl.
  rewrite parse_stringify. unfold coherent. simpl.
  repeat split; try done; try (by eexists).
  all: intros; simplify_eq; try done; by eexists.
Qed.

Lemma coherent_apply st op :
  coherent stringify st → coherent stringify (apply stringify parse merge st op).
Proof.
  intros Hst. destruct op; simpl.
  - by apply coherent_login.
  - by apply coherent_login.
  - apply coherent_logout.
  - by apply coherent_updateUser.
  - apply coherent_restart. apply Hst.
Qed.

Lemma coherent_run ops st :
  coherent stringify st → coherent stringify (run stringify parse merge st ops).
Proof.
  revert st. induction ops as [|op ops IH]; intros st Hst; [done|].
  simpl. by apply IH, coherent_apply.
Qed.

End SessionFacts.

(** X9: provided [JSON.parse] reads back what [JSON.stringify] writes,
    every sequence of logins, registrations, logouts, profile updates
    and restarts on a fresh device leaves the session coherent: the
    [Authorization] header is the bearer of the token in memory (and
    absent without one), token and user are set together, and the
    storage holds exactly that token and that user. *)
Theorem session_coherent (U P : Type) (stringify : U → string)
    (parse : string → option U) (merge : U → P → U)
    (ops : list (Session.Op U P)) :
  (∀ u, parse (stringify u) = Some u) →
  Session.coherent stringify
    (Session.run stringify parse merge (Session.initial ∅) ops).
Proof.
  intros Hround. apply coherent_run; [done|]. apply coherent_initial.
Qed.

(** X10: a coherent session with a non-empty token (and a non-empty
    stored user) survives a restart: token, user and header come back as
    they were and the loading flag is lowered.  After a logout nothing
    is left to restore, in memory or on the device. *)
Theorem session_restart_round_trip (U : Type) (stringify : U → string)
    (parse : string → option U) (st : Session.State U) :
  (∀ u, parse (stringify u) = Some u) →
  (∀ t u, Session.coherent stringify st →
     Session.token st = Some t → t ≠ "" →
     Session.user st = Some u → stringify u ≠ "" →
     Session.token (Session.restart parse st) = Some t ∧
     Session.user (Session.restart parse st) = Some u ∧
     Session.authorization (Session.restart parse st) = Some ("Bearer " +:+ t) ∧
     Session.isLoading (Session.restart parse st) = false) ∧
  (Session.storage (Session.logout st) !! "token" = None ∧
   Session.storage (Session.logout st) !! "user" = None ∧
   Session.token (Session.restart parse (Session.logout st)) = None ∧
   Session.user (Session.restart parse (Session.logout st)) = None ∧
   Session.authorization (Session.restart parse (Session.logout st)) = None).
Proof.
  intros Hround. split.
  - intros t u (Ha & Hb & Hc & Hd & He) Ht Hne Hu Hsu.
    unfold Session.restart, Session.loadStoredAuth. cbn.
    rewrite (Hc t Ht), (Hd u Hu).
    rewrite (proj2 (truthyField_Some t) Hne), (proj2 (truthyField_Some _) Hsu).
    simpl. by rewrite Hround.
  - unfold Session.restart, Session.loadStoredAuth, Session.logout. cbn.
    rewrite lookup_delete_ne by done. rewrite !lookup_delete_eq. done.
Qed.

(** X11: [loadStoredAuth] restores nothing unless both items are stored
    and non-empty; and when the stored user cannot be parsed the token
    is put in memory all the same, without user and without header. *)
Theorem loadStoredAuth_edges (U : Type) (parse : string → option U)
    (store : gmap string string) :
  (truthyField (store !! "token") = false ∨ truthyField (store !! "user") = false →
     Session.loadStoredAuth parse (Session.initial store) =
       {| Session.user := None; Session.token := None; Session.isLoading := false;
          Session.storage := store; Session.authorization := None |}) ∧
  (∀ t s, store !! "token" = Some t → t ≠ "" →
          store !! "user" = Some s → s ≠ "" → parse s = None →
     Session.loadStoredAuth parse (Session.initial store) =
       {| Session.user := None; Session.token := Some t; Session.isLoading := false;
          Session.storage := store; Session.authorization := None |}).
Proof.
  unfold Session.loadStoredAuth. cbn. split.
  - intros [-> | ->]; by rewrite ?andb_false_r.
  - intros t s Ht Hne Hs Hnes Hparse. rewrite Ht, Hs.
    rewrite (proj2 (truthyField_Some t) Hne), (proj2 (truthyField_Some s) Hnes).
    simpl. by rewrite Hparse.
Qed.

(** ** Group creation *)

Section GroupForm.

Import CreateGroup.

(** Every type of the picker is drawn by the list screen with the
    picker's own icon and colour. *)
Lemma picker_types_rendered (inherited : string → bool) (t : GroupType) :
  t ∈ GROUP_TYPES →
  GroupList.getTypeIcon inherited (value t) = Own (icon t) ∧
  GroupList.getTypeColor inherited (value t) = Own (color t).
Proof.
  unfold GROUP_TYPES. intros Ht.
  repeat (apply elem_of_cons in Ht as [-> | Ht]); try (by split).
  by apply elem_of_nil in Ht.
Qed.

Variable edit : option nat → jsstring → jsstring.
Hypothesis edit_maxLength : ∀ n typed, length (edit (Some n) typed) ≤ n.

Lemma formOk_initial : formOk initial.
Proof.
  unfold formOk. simpl. repeat split; try lia.
  eexists. split; [left|done].
Qed.

Lemma formOk_step st ev : formOk st → formOk (step edit st ev).1.
Proof.
  intros (Hn & Hd & Ht). destruct ev as [typed|typed|i|reply]; simpl.
  - split; [apply edit_maxLength|done].
  - split; [done|]. split; [apply edit_maxLength|done].
  - destruct (GROUP_TYPES !! i) as [t|] eqn:Hi; simpl; [|done].
    repeat split; try done. exists t. split; [|done].
    by eapply list_elem_of_lookup_2.
  - unfold handleCreate. destruct (negb _); [done|]. by destruct reply.
Qed.

Lemma step_posted st ev body :
  formOk st → body ∈ (step edit st ev).2 →
  body = groupBody st ∧ trim (name st) ≠ [].
Proof.
  intros _. destruct ev as [typed|typed|i|reply]; simpl;
    try (by intros ?%elem_of_nil).
  - destruct (GROUP_TYPES !! i); simpl; by intros ?%elem_of_nil.
  - unfold handleCreate.
    destruct (trim (name st)) as [|c r] eqn:Hname; simpl.
    + by intros ?%elem_of_nil.
    + destruct reply; simpl; by intros ->%list_elem_of_singleton.
Qed.

Lemma groupBody_ok st :
  formOk st → trim (name st) ≠ [] →
  body_name (groupBody st) ≠ [] ∧
  trim (body_name (groupBody st)) = body_name (groupBody st) ∧
  length (body_name (groupBody st)) ≤ 50 ∧
  (∀ d, body_description (groupBody st) = Some d →
     d ≠ [] ∧ trim d = d ∧ length d ≤ 200) ∧
  ∃ t, t ∈ GROUP_TYPES ∧ body_type (groupBody st) = value t.
Proof.
  intros (Hn & Hd & Ht) Hname. simpl. repeat split; try done.
  - apply trim_idemp.
  - etransitivity; [apply trim_length|done].
  - by apply orNull_trim in H as (? & ? & ?).
  - by apply orNull_trim in H as (? & ? & ?).
  - apply orNull_trim in H as (? & ? & ?). unfold descriptionMaxLength in Hd. lia.
Qed.

Lemma run_posted evs st body :
  formOk st → body ∈ (run edit st evs).2 →
  ∃ st', formOk st' ∧ trim (name st') ≠ [] ∧ body = groupBody st'.
Proof.
  revert st. induction evs as [|ev evs IH]; intros st Hst; simpl.
  - by intros ?%elem_of_nil.
  - pose proof (formOk_step st ev Hst) as Hst1.
    pose proof (step_posted st ev body Hst) as Hpost.
    destruct (step edit st ev) as [st1 posted1].
    specialize (IH st1 Hst1).
    destruct (run edit st1 evs) as [st2 posted2]. simpl in *.
    rewrite elem_of_app. intros [H|H]; [|by auto].
    destruct (Hpost H) as [-> Hne]. by exists st.
Qed.

End GroupForm.

(** X12: with text fields that honour [maxLength], every body the
    group form ever posts has a trimmed, non-empty name of at most 50
    code units, a description that is [null] or trimmed, non-empty and
    of at most 200 code units, and one of the six types of the picker;
    and the list screen draws each of these types with the picker's own
    icon and colour, never with the fallback of an unknown type. *)
Theorem group_form_posts_valid (edit : option nat → jsstring → jsstring)
    (evs : list CreateGroup.FormEvent) (body : CreateGroup.GroupBody)
    (inherited : string → bool) :
  (∀ n typed, length (edit (Some n) typed) ≤ n) →
  body ∈ (CreateGroup.run edit CreateGroup.initial evs).2 →
  CreateGroup.body_name body ≠ [] ∧
  trim (CreateGroup.body_name body) = CreateGroup.body_name body ∧
  length (CreateGroup.body_name body) ≤ 50 ∧
  (∀ d, CreateGroup.body_description body = Some d →
     d ≠ [] ∧ trim d = d ∧ length d ≤ 200) ∧
  ∃ t, t ∈ CreateGroup.GROUP_TYPES ∧
       CreateGroup.body_type body = CreateGroup.value t ∧
       GroupList.getTypeIcon inherited (CreateGroup.body_type body) =
         Own (CreateGroup.icon t) ∧
       GroupList.getTypeColor inherited (CreateGroup.body_type body) =
         Own (CreateGroup.color t).
Proof.
  intros Hedit Hin.
  destruct (run_posted edit Hedit evs CreateGroup.initial body formOk_initial Hin)
    as (st & Hst & Hname & ->).
  destruct (groupBody_ok st Hst Hname) as (H1 & H2 & H3 & H4 & t & Ht & Htype).
  repeat split; try done; try (by apply H4).
  exists t. rewrite Htype.
  destruct (picker_types_rendered inherited t Ht) as [Hicon Hcolor]. done.
Qed.

(** ** Document upload *)

Lemma nameOf_truthy (file : Upload.Asset) : Upload.nameOf file ≠ [].
Proof. unfold Upload.nameOf. by destruct (Upload.asset_name file) as [[|c n]|]. Qed.

Lemma fileTypeOf_nonempty (file : Upload.Asset) : Upload.fileTypeOf file ≠ "".
Proof.
  unfold Upload.fileTypeOf.
  destruct (Upload.mimeType file) as [[|a s]|]; simpl; done.
Qed.

(** X13: picking a file selects the first asset, fills an empty name
    field with the file's name (or 'Dokument') and never replaces a name
    that is already there; a cancelled, empty or failed pick changes
    nothing.  [handleUpload] posts only with a file selected, a name
    that is not blank and a file that could be read: the body then
    carries the trimmed name, the content read and a file type that is
    never empty (the picker's type, or application/octet-stream). *)
Theorem upload_guards (st : Upload.State) :
  (∀ r file rest, Upload.canceled r = false → Upload.assets r = Some (file :: rest) →
     Upload.selectedFile (Upload.pickDocument st (Resolved r)).1 = Some file ∧
     Upload.name (Upload.pickDocument st (Resolved r)).1 ≠ [] ∧
     (Upload.name st ≠ [] →
        Upload.name (Upload.pickDocument st (Resolved r)).1 = Upload.name st) ∧
     (Upload.name st = [] →
        Upload.name (Upload.pickDocument st (Resolved r)).1 = Upload.nameOf file)) ∧
  (∀ r, Upload.canceled r = true ∨ Upload.assets r = None ∨ Upload.assets r = Some [] →
     (Upload.pickDocument st (Resolved r)).1 = st) ∧
  (∀ d, (Upload.pickDocument st (Rejected d)).1 = st) ∧
  (∀ read reply body,
     (∃ msg, (Upload.handleUpload st read reply).2 = Upload.PostRejected body msg) ∨
     (Upload.handleUpload st read reply).2 = Upload.Uploaded body →
     ∃ file base64,
       Upload.selectedFile st = Some file ∧ read = Resolved base64 ∧
       Upload.body_name body = trim (Upload.name st) ∧
       Upload.body_name body ≠ [] ∧
       Upload.body_content body = base64 ∧
       Upload.body_file_type body = Upload.fileTypeOf file ∧
       Upload.body_file_type body ≠ "") ∧
  (Upload.selectedFile st = None ∨ forallb isWhiteSpace (Upload.name st) = true →
     ∀ read reply, ∃ msg, Upload.handleUpload st read reply = (st, Upload.Refused msg)).
Proof.
  split; [|split; [|split; [|split]]].
  - intros r file rest Hc Ha. unfold Upload.pickDocument. rewrite Hc, Ha. simpl.
    destruct (Upload.name st) as [|c n] eqn:Hn; simpl.
    + repeat split; try done. apply nameOf_truthy.
    + repeat split; done.
  - intros r H. unfold Upload.pickDocument.
    destruct (Upload.canceled r); [done|].
    destruct H as [H | [-> | ->]]; done.
  - done.
  - intros read reply body. unfold Upload.handleUpload.
    destruct (Upload.selectedFile st) as [file|]; [|naive_solver].
    destruct (trim (Upload.name st)) as [|c n] eqn:Hn; simpl; [naive_solver|].
    destruct read as [base64|]; [|naive_solver].
    pose proof (fileTypeOf_nonempty file).
    destruct reply; simpl; intros [[msg [=]] | [=]]; subst body;
      exists file, base64; simpl; rewrite ?Hn; repeat split; done.
  - intros H read reply. unfold Upload.handleUpload.
    destruct (Upload.selectedFile st) as [file|]; [|by eexists].
    destruct H as [H | H]; [done|].
    apply trim_nil_iff in H. rewrite H. by eexists.
Qed.

(** ** Documents: icons and deletion *)

Section Substrings.

Lemma startsWith_iff (s needle : string) :
  startsWith s needle = true ↔ ∃ b, s = needle +:+ b.
Proof.
  revert s. induction needle as [|a needle IH]; intros s; simpl.
  - destruct s; split; eauto.
  - destruct s as [|c s]; simpl.
    + split; [done|]. by intros [b [=]].
    + rewrite andb_true_iff, Ascii.eqb_eq, IH. split.
      * intros [-> [b ->]]. by exists b.
      * intros [b [= -> ->]]. eauto.
Qed.

Lemma strIncludes_nil (needle : string) :
  strIncludes "" needle = startsWith "" needle.
Proof. simpl. apply orb_false_r. Qed.

Lemma strIncludes_cons (c : ascii) (s needle : string) :
  strIncludes (String c s) needle =
  startsWith (String c s) needle || strIncludes s needle.
Proof. reflexivity. Qed.

Lemma strIncludes_iff (s needle : string) :
  strIncludes s needle = true ↔ ∃ a b, s = a +:+ needle +:+ b.
Proof.
  induction s as [|c s IH].
  - rewrite strIncludes_nil, startsWith_iff. split.
    + intros [b Hb]. by exists "", b.
    + intros (a & b & Hab). destruct a; simpl in *; [by exists b|done].
  - rewrite strIncludes_cons, orb_true_iff, startsWith_iff, IH. split.
    + intros [[b Hb] | (a & b & ->)].
      * by exists "", b.
      * by exists (String c a), b.
    + intros ([|c' a] & b & Hab); simpl in *.
      * left. by exists b.
      * right. injection Hab as -> ->. by exists a, b.
Qed.

Lemma append_assoc (a b c : string) : (a +:+ b) +:+ c = a +:+ (b +:+ c).
Proof.
  induction a as [|x a IH]; [done|].
  change (String x ((a +:+ b) +:+ c) = String x (a +:+ (b +:+ c))).
  by rewrite IH.
Qed.

(** A string that contains [m] contains whatever [m] contains. *)
Lemma strIncludes_trans (s m n : string) :
  strIncludes s m = true → strIncludes m n = true → strIncludes s n = true.
Proof.
  rewrite !strIncludes_iff. intros (a & b & ->) (a' & b' & ->).
  exists (a +:+ a'), (b' +:+ b). by rewrite !append_assoc.
Qed.

End Substrings.

(** X14: the tests of [getFileIcon] are tried in order.  A type that
    mentions pdf always gets the PDF icon; the spreadsheet icon is given
    only to a type that mentions excel or sheet and none of pdf, image,
    word and doc; hence a type that mentions officedocument, as the
    OOXML spreadsheet type does, never gets the spreadsheet icon; and
    the paper-clip icon is given exactly to the types that mention none
    of the seven words. *)
Theorem getFileIcon_order (fileType : string) :
  (strIncludes fileType "pdf" = true →
     Inbox.icon_name (Documents.getFileIcon fileType) = "document-text") ∧
  (Inbox.icon_name (Documents.getFileIcon fileType) = "grid" ↔
     (strIncludes fileType "excel" = true ∨ strIncludes fileType "sheet" = true) ∧
     strIncludes fileType "pdf" = false ∧ strIncludes fileType "image" = false ∧
     strIncludes fileType "word" = false ∧ strIncludes fileType "doc" = false) ∧
  (strIncludes fileType "officedocument" = true →
     Inbox.icon_name (Documents.getFileIcon fileType) ≠ "grid" ∧
     (strIncludes fileType "pdf" = false → strIncludes fileType "image" = false →
        Inbox.icon_name (Documents.getFileIcon fileType) = "document")) ∧
  (Inbox.icon_name (Documents.getFileIcon fileType) = "document-attach" ↔
     strIncludes fileType "pdf" = false ∧ strIncludes fileType "image" = false ∧
     strIncludes fileType "word" = false ∧ strIncludes fileType "doc" = false ∧
     strIncludes fileType "excel" = false ∧ strIncludes fileType "sheet" = false).
Proof.
  assert (Hdoc : strIncludes fileType "officedocument" = true →
                 strIncludes fileType "doc" = true).
  { intros H. by apply (strIncludes_trans _ _ _ H). }
  unfold Documents.getFileIcon.
  destruct (strIncludes fileType "pdf"), (strIncludes fileType "image"),
           (strIncludes fileType "word"), (strIncludes fileType "doc"),
           (strIncludes fileType "excel"), (strIncludes fileType "sheet");
    simpl; repeat split; try done; try naive_solver.
Qed.

(** X15: a document row offers deletion to admins and trainers only.
    The dialog it opens asks first: the cancel button issues nothing,
    and the only requests behind the delete button are the delete of
    that very document and, once it has resolved, the reload of the
    list; a rejected delete is not followed by a reload. *)
Theorem deleteDocument_confirmed (user : option Auth.User)
    (item : Documents.Document) :
  (is_Some (Documents.rowDelete user item) ↔
     ∃ u, user = Some u ∧ (Auth.role u = "admin" ∨ Auth.role u = "trainer")) ∧
  (∀ dlg, Documents.rowDelete user item = Some dlg →
     dlg = Documents.deleteDocument item) ∧
  (∀ b reply r, b ∈ Members.buttons (Documents.deleteDocument item) →
     r ∈ requests (Members.onPress b reply) →
     Members.style b = Some "destructive" ∧
     (r = ApiDelete ("/api/documents/" +:+ Documents.id item) ∨
      r = ApiGet "/api/documents" ∧ ∃ x, reply = Resolved x)) ∧
  (∀ b reply, b ∈ Members.buttons (Documents.deleteDocument item) →
     Members.style b = Some "cancel" → Members.onPress b reply = []) ∧
  (∀ d,
     flat_map (λ b, requests (Members.onPress b (Rejected d)))
       (Members.buttons (Documents.deleteDocument item)) =
     [ApiDelete ("/api/documents/" +:+ Documents.id item)]).
Proof.
  split; [|split; [|split; [|split]]].
  - unfold Documents.rowDelete, Documents.canManage.
    destruct user as [u|]; simpl.
    + destruct (String.eqb_spec (Auth.role u) "admin") as [Ha|Ha],
               (String.eqb_spec (Auth.role u) "trainer") as [Ht|Ht]; simpl;
        split; try (intros _; by eauto); try (intros [? ?]; done).
      intros (u' & [= <-] & [? | ?]); done.
    + split; [by intros [? ?]|]. by intros (u & [=] & _).
  - unfold Documents.rowDelete. destruct (Documents.canManage user); [|done].
    by intros dlg [= <-].
  - intros b reply r Hb. simpl in Hb.
    repeat (apply elem_of_cons in Hb as [-> | Hb]);
      [| |by apply elem_of_nil in Hb]; simpl.
    + by intros ?%elem_of_nil.
    + destruct reply; simpl; intros Hr;
        repeat (apply elem_of_cons in Hr as [-> | Hr]);
        try (by apply elem_of_nil in Hr); split; eauto.
  - intros b reply Hb. simpl in Hb.
    repeat (apply elem_of_cons in Hb as [-> | Hb]);
      [| |by apply elem_of_nil in Hb]; simpl; done.
  - done.
Qed.

(** ** Dashboard and inbox icons *)

(** X16: the dashboard and the notifications screen draw a notification
    with the same icon for every type except 'group_added', which the
    screen draws as 'people' and the dashboard as the generic bell. *)
Theorem notification_icons_agree (type : string) :
  (type ≠ "group_added" →
     Dashboard.notificationIconName type =
     Inbox.icon_name (Inbox.getNotificationIcon type)) ∧
  (type = "group_added" →
     Dashboard.notificationIconName type = "notifications" ∧
     Inbox.icon_name (Inbox.getNotificationIcon type) = "people").
Proof.
  unfold Dashboard.notificationIconName, Inbox.getNotificationIcon. split.
  - intros Hne.
    destruct (String.eqb type "new_message"); [done|].
    destruct (String.eqb type "new_event"); [done|].
    destruct (String.eqb_spec type "group_added"); done.
  - by intros ->.
Qed.

(** X17: the dashboard shows at most three cards of a list, the first
    three in the order received, and the empty state exactly when the
    list is missing or empty; the unread badge is shown exactly for a
    positive count. *)
Theorem dashboard_cards_bounded {A} (l : option (list A)) (unread : option Z) :
  (∀ cards, Dashboard.shown l = Some cards →
     ∃ full, l = Some full ∧ cards = take 3 full ∧
             1 ≤ length cards ≤ 3 ∧ length cards = min 3 (length full)) ∧
  (Dashboard.shown l = None ↔ l = None ∨ l = Some []) ∧
  (Dashboard.showBadge unread = true ↔ ∃ n, unread = Some n ∧ (0 < n)%Z).
Proof.
  split; [|split].
  - intros cards. unfold Dashboard.shown.
    destruct l as [[|x full]|]; try done.
    intros Heq. assert (cards = take 3 (x :: full)) as -> by congruence.
    exists (x :: full).
    rewrite length_take. cbn [length]. repeat split; try done; lia.
  - destruct l as [[|x full]|]; simpl; naive_solver.
  - unfold Dashboard.showBadge. destruct unread as [n|]; simpl.
    + rewrite Z.ltb_lt. naive_solver.
    + split; [done|]. by intros (n & [=] & _).
Qed.

(** ** The participant limit of a new event *)

Section Limit.

Import CreateEvent.

Lemma isDigit_digitValue c :
  isDigit c = true → digitValue 10 c = Some (c - 48)%N.
Proof.
  unfold isDigit, digitValue. intros H. rewrite H.
  apply andb_prop in H as [H1%N.leb_le H2%N.leb_le].
  assert ((c - 48 <? 10)%N = true) as -> by (apply N.ltb_lt; lia). done.
Qed.

Lemma isDigit_not_whitespace c : isDigit c = true → isWhiteSpace c = false.
Proof. apply digit_not_whitespace. Qed.

Lemma digitsPrefix_digits (ds : jsstring) (acc : N) :
  forallb isDigit ds = true →
  digitsPrefix 10 (Some acc) ds =
  Some (fold_left (λ a c, 10 * a + (c - 48))%N ds acc).
Proof.
  revert acc. induction ds as [|c ds IH]; intros acc; simpl; [done|].
  intros [Hc Hds]%andb_prop. rewrite (isDigit_digitValue c Hc). simpl.
  by rewrite IH.
Qed.

(** A numeral of [n] digits writes a number below [10^n]. *)
Lemma digits_bound (ds : jsstring) (acc : N) :
  forallb isDigit ds = true →
  (fold_left (λ a c, 10 * a + (c - 48)) ds acc < (acc + 1) * 10 ^ N.of_nat (length ds))%N.
Proof.
  revert acc. induction ds as [|c ds IH]; intros acc; simpl fold_left.
  - intros _. simpl. lia.
  - intros [Hc Hds]%andb_prop.
    apply andb_prop in Hc as [H1%N.leb_le H2%N.leb_le].
    specialize (IH (10 * acc + (c - 48))%N Hds).
    eapply N.lt_le_trans; [exact IH|].
    cbn [length]. rewrite Nat2N.inj_succ, N.pow_succ_r'. nia.
Qed.

(** Numbers of at most fifteen digits are doubles. *)
Lemma small_number_exact (n : N) :
  (n < 10 ^ 15)%N →
  overflowsDouble (Z.of_N n) = false ∧ nearestDouble (Z.of_N n) = Z.of_N n.
Proof.
  intros Hn. change (10 ^ 15)%N with 1000000000000000%N in Hn. split.
  - unfold overflowsDouble. apply Z.leb_gt.
    apply Z.lt_trans with 1000000000000000%Z; [lia|].
    by apply Z.ltb_lt; vm_compute.
  - apply nearestDouble_safe. lia.
Qed.

Lemma parseInt_digits (ds : jsstring) :
  ds ≠ [] → forallb isDigit ds = true → length ds ≤ 15 →
  parseInt ds = Some (Z.of_N (decimalValue ds)).
Proof.
  intros Hne Hall Hlen.
  assert (Hsmall : (decimalValue ds < 10 ^ 15)%N).
  { eapply N.lt_le_trans; [apply (digits_bound ds 0 Hall)|].
    rewrite N.add_0_l, N.mul_1_l.
    apply N.pow_le_mono_r; lia. }
  destruct (small_number_exact _ Hsmall) as [Hfinite Hexact].
  destruct ds as [|c ds]; [done|].
  pose proof Hall as [Hc Hds]%andb_prop.
  unfold parseInt. simpl trimStart. rewrite (isDigit_not_whitespace c Hc).
  pose proof Hc as [H1%N.leb_le H2%N.leb_le]%andb_prop.
  unfold stripSign.
  assert ((c =? 45)%N = false) as -> by (apply N.eqb_neq; lia).
  assert ((c =? 43)%N = false) as -> by (apply N.eqb_neq; lia).
  assert (stripHexPrefix (c :: ds) = (10%N, c :: ds)) as ->.
  { unfold stripHexPrefix. destruct ds as [|x ds]; [done|].
    simpl in Hds. apply andb_prop in Hds as [Hx _].
    apply andb_prop in Hx as [Hx1%N.leb_le Hx2%N.leb_le].
    assert ((x =? 120)%N = false) as -> by (apply N.eqb_neq; lia).
    assert ((x =? 88)%N = false) as -> by (apply N.eqb_neq; lia).
    by rewrite andb_false_r. }
  simpl digitsPrefix. rewrite (isDigit_digitValue c Hc).
  rewrite (digitsPrefix_digits ds _ Hds).
  change (fold_left (λ a c0, 10 * a + (c0 - 48))%N ds (10 * 0 + (c - 48))%N)
    with (decimalValue (c :: ds)).
  by rewrite Hfinite, Hexact.
Qed.

Lemma parseInt_no_number (c : N) (rest : jsstring) :
  isWhiteSpace c = false → isDigit c = false → c ≠ 45%N → c ≠ 43%N →
  parseInt (c :: rest) = None.
Proof.
  intros Hws Hd H45 H43. unfold parseInt. simpl trimStart. rewrite Hws.
  unfold stripSign.
  rewrite (proj2 (N.eqb_neq c 45) H45), (proj2 (N.eqb_neq c 43) H43).
  assert (digitValue 10 c = None) as Hv.
  { unfold digitValue. unfold isDigit in Hd. rewrite Hd.
    destruct ((97 <=? c) && (c <=? 122))%N eqn:Hl.
    - apply andb_prop in Hl as [H1%N.leb_le H2%N.leb_le].
      assert ((c - 87 <? 10)%N = false) as -> by (apply N.ltb_ge; lia). done.
    - destruct ((65 <=? c) && (c <=? 90))%N eqn:Hu; [|done].
      apply andb_prop in Hu as [H1%N.leb_le H2%N.leb_le].
      assert ((c - 55 <? 10)%N = false) as -> by (apply N.ltb_ge; lia). done. }
  unfold stripHexPrefix. destruct rest as [|x rest].
  - simpl. by rewrite Hv.
  - assert ((c =? 48)%N = false) as ->.
    { apply N.eqb_neq. intros ->. done. }
    simpl. by rewrite Hv.
Qed.

End Limit.

(** X18: the limit field never stops a creation, it only decides what
    is sent.  An empty field is sent as [null]; a field of decimal
    digits only (at most 15, so that the number is exact) is sent as the
    number it writes; a field whose first code unit is neither white
    space, a digit nor a sign is sent as [null] as well, so that the
    event is created without a limit. *)
Theorem limit_field_sent (st : CreateEvent.State) :
  (CreateEvent.maxParticipants st = [] →
     body_max_participants (CreateEvent.eventBody st) = None) ∧
  (CreateEvent.maxParticipants st ≠ [] →
   forallb isDigit (CreateEvent.maxParticipants st) = true →
   length (CreateEvent.maxParticipants st) ≤ 15 →
     body_max_participants (CreateEvent.eventBody st) =
       Some (Z.of_N (decimalValue (CreateEvent.maxParticipants st)))) ∧
  (∀ c rest, CreateEvent.maxParticipants st = c :: rest →
     isWhiteSpace c = false → isDigit c = false → c ≠ 45%N → c ≠ 43%N →
     body_max_participants (CreateEvent.eventBody st) = None) ∧
  (∀ st' reply,
     CreateEvent.title st' = CreateEvent.title st →
     CreateEvent.date st' = CreateEvent.date st →
     length (requests (CreateEvent.handleCreate st' reply).2) =
     length (requests (CreateEvent.handleCreate st reply).2)).
Proof.
  split; [|split; [|split]].
  - simpl. by intros ->.
  - intros Hne Hall Hlen. simpl.
    destruct (CreateEvent.maxParticipants st) as [|c ds] eqn:Hm; [done|].
    simpl truthy. cbn iota. by apply parseInt_digits.
  - intros c rest Hm Hws Hd H45 H43. simpl. rewrite Hm. simpl truthy. cbn iota.
    by apply parseInt_no_number.
  - intros st' reply Ht Hd. unfold CreateEvent.handleCreate. rewrite Ht, Hd.
    destruct (negb (truthy (trim (CreateEvent.title st)))); [done|].
    destruct (negb (truthy (trim (CreateEvent.date st)))); [done|].
    destruct (negb (CreateEvent.test CreateEvent.dateRegex (CreateEvent.date st)));
      [done|].
    by destruct reply.
Qed.

(** ** Worked instances of the further properties *)

Lemma eventBody_trimmed_witness :
  body_description (CreateEvent.eventBody Samples.goodForm) = None ∧
  (lit "18:00" ≠ [] ∧ trim (lit "18:00") = lit "18:00").
Proof.
  destruct (eventBody_trimmed Samples.goodForm) as (_ & _ & Hopt & Hdesc & _).
  split.
  - apply Hdesc. reflexivity.
  - apply Hopt. right. left. reflexivity.
Defined.

Lemma handleNotificationPress_routes_witness :
  Inbox.destination (Samples.note "n1" false) = [RouterPush "/group/g1"].
Proof.
  destruct (handleNotificationPress_routes (Samples.note "n1" false)
              Samples.inbox (Resolved ())) as (_ & _ & _ & Hgroup & _).
  apply (Hgroup "g1"); [reflexivity|discriminate].
Defined.

Lemma markAsRead_unreadCount_witness :
  Notifications.unreadCount
    (Notifications.markAsRead "n1" Samples.inbox (Resolved ())).1 + 1 =
  Notifications.unreadCount Samples.inbox.
Proof.
  destruct (markAsRead_unreadCount "n1" Samples.inbox) as (_ & Hone & _).
  apply (Hone (Samples.note "n1" false)).
  - apply (bool_decide_unpack _). vm_compute. exact I.
  - left.
  - reflexivity.
  - reflexivity.
Defined.

Lemma attendance_views_agree_witness :
  Events.getAttendanceStatus (Some Samples.admin)
    (Samples.listed None ["u1"; "u2"]) = "attending".
Proof.
  destruct (attendance_views_agree (Some Samples.admin)
              (Samples.listed None ["u1"; "u2"])
              (Samples.detailed None ["u1"; "u2"]) eq_refl eq_refl)
    as (Hatt & _).
  apply Hatt. reflexivity.
Defined.

Lemma member_counters_consistent_witness :
  MemberStats.trainers [Samples.admin; Samples.guest] = 0.
Proof.
  destruct (member_counters_consistent [Samples.admin; Samples.guest])
    as (_ & _ & Htr & _).
  apply Htr. intros m Hm.
  repeat (apply elem_of_cons in Hm as [-> | Hm]); try discriminate.
  by apply elem_of_nil in Hm.
Defined.

Lemma send_once_witness :
  requests
    (GroupChat.step Samples.truncating "g1" Fixtures.draftHi
       (GroupChat.EvPressSend (Resolved Samples.hello))).2 =
  [ApiPost (GroupChat.messagesUrl "g1") (MessageBody (lit "hi"))] ∧
  GroupChat.step Samples.truncating "g1" Samples.blankDraft
    (GroupChat.EvPressSend (Resolved Samples.hello)) = (Samples.blankDraft, []).
Proof.
  destruct (send_once Samples.truncating "g1" Fixtures.draftHi) as [_ Hen].
  destruct (send_once Samples.truncating "g1" Samples.blankDraft) as [Hdis _].
  split.
  - apply Hen. reflexivity.
  - apply Hdis. reflexivity.
Defined.

Lemma message_under_its_date_witness :
  ∃ j first,
    j ≤ 1 ∧ [Samples.hello; Fixtures.later] !! j = Some first ∧
    ChatView.showDate Fixtures.dayOf [Samples.hello; Fixtures.later] j first = true ∧
    ∀ k between, j ≤ k ≤ 1 →
      [Samples.hello; Fixtures.later] !! k = Some between →
      Fixtures.dayOf (Some (GroupChat.created_at between)) =
      Fixtures.dayOf (Some (GroupChat.created_at Fixtures.later)).
Proof.
  apply (message_under_its_date Fixtures.dayOf
           [Samples.hello; Fixtures.later] 1 Fixtures.later).
  reflexivity.
Defined.

Lemma session_coherent_witness :
  Session.coherent Fixtures.writeUser
    (Session.run Fixtures.writeUser Fixtures.readUser Fixtures.renameUser
       (Session.initial ∅)
       [Session.OpLogin (Resolved ("t1", "vera"));
        Session.OpUpdateUser "Vera K."; Session.OpRestart]).
Proof.
  apply (session_coherent string string Fixtures.writeUser Fixtures.readUser
           Fixtures.renameUser).
  intros u. reflexivity.
Defined.

Lemma session_restart_round_trip_witness :
  Session.token
    (Session.restart Fixtures.readUser
       (Session.login Fixtures.writeUser (Session.initial ∅)
          (Resolved ("t1", "vera")))) = Some "t1" ∧
  Session.user
    (Session.restart Fixtures.readUser
       (Session.login Fixtures.writeUser (Session.initial ∅)
          (Resolved ("t1", "vera")))) = Some "vera".
Proof.
  destruct (session_restart_round_trip string Fixtures.writeUser Fixtures.readUser
              (Session.login Fixtures.writeUser (Session.initial ∅)
                 (Resolved ("t1", "vera")))
              (fun u => eq_refl)) as [Hback _].
  destruct (Hback "t1" "vera") as (Ht & Hu & _).
  - apply coherent_login, coherent_initial.
  - reflexivity.
  - discriminate.
  - reflexivity.
  - discriminate.
  - split; [exact Ht|exact Hu].
Defined.

Lemma loadStoredAuth_edges_witness :
  Session.loadStoredAuth Fixtures.readUser
    (Session.initial (<["user" := "vera"]> (<["token" := "t1"]> ∅))) =
  {| Session.user := None; Session.token := Some "t1"; Session.isLoading := false;
     Session.storage := <["user" := "vera"]> (<["token" := "t1"]> ∅);
     Session.authorization := None |}.
Proof.
  destruct (loadStoredAuth_edges string Fixtures.readUser
              (<["user" := "vera"]> (<["token" := "t1"]> ∅))) as [_ Hbad].
  apply (Hbad "t1" "vera").
  - reflexivity.
  - discriminate.
  - reflexivity.
  - discriminate.
  - reflexivity.
Defined.

Lemma group_form_posts_valid_witness :
  lit "Team" ≠ [] ∧ trim (lit "Team") = lit "Team" ∧ length (lit "Team") ≤ 50.
Proof.
  destruct (group_form_posts_valid Samples.truncating
              [CreateGroup.EvName (lit " Team "); CreateGroup.EvType 3;
               CreateGroup.EvCreate (Resolved "g9")]
              {| CreateGroup.body_name := lit "Team";
                 CreateGroup.body_description := None;
                 CreateGroup.body_type := "team" |}
              (λ _, false))
    as (Hne & Htrim & Hlen & _).
  - intros n typed. simpl. rewrite length_take. lia.
  - vm_compute. left.
  - split; [exact Hne|]. split; [exact Htrim|exact Hlen].
Defined.

Lemma upload_guards_witness :
  Upload.name (Upload.pickDocument Upload.initial (Resolved Fixtures.picked)).1 =
    lit "plan.xlsx" ∧
  ∃ msg, Upload.handleUpload Upload.initial (Resolved "QUJD") (Resolved ()) =
           (Upload.initial, Upload.Refused msg).
Proof.
  destruct (upload_guards Upload.initial) as (Hpick & _ & _ & _ & Hrefused).
  split.
  - destruct (Hpick Fixtures.picked Fixtures.sheet [] eq_refl eq_refl)
      as (_ & _ & _ & Hname).
    apply Hname. reflexivity.
  - apply Hrefused. left. reflexivity.
Defined.

Lemma getFileIcon_order_witness :
  Inbox.icon_name (Documents.getFileIcon Fixtures.ooxmlSheet) = "document".
Proof.
  destruct (getFileIcon_order Fixtures.ooxmlSheet) as (_ & _ & Hooxml & _).
  destruct Hooxml as [_ Hword]; [reflexivity|].
  apply Hword; reflexivity.
Defined.

Lemma deleteDocument_confirmed_witness :
  Documents.rowDelete (Some Fixtures.trainer) Fixtures.plan =
    Some (Documents.deleteDocument Fixtures.plan) ∧
  ¬ is_Some (Documents.rowDelete (Some Samples.guest) Fixtures.plan).
Proof.
  split.
  - destruct (deleteDocument_confirmed (Some Fixtures.trainer) Fixtures.plan)
      as (Hgate & Hdlg & _).
    destruct (proj2 Hgate) as [dlg Hrow].
    + exists Fixtures.trainer. split; [reflexivity|]. right. reflexivity.
    + rewrite Hrow. f_equal. by apply Hdlg.
  - destruct (deleteDocument_confirmed (Some Samples.guest) Fixtures.plan)
      as (Hgate & _).
    intros (u & [= <-] & [Hr | Hr])%Hgate; discriminate.
Defined.

Lemma notification_icons_agree_witness :
  Dashboard.notificationIconName "new_event" =
  Inbox.icon_name (Inbox.getNotificationIcon "new_event").
Proof.
  apply (notification_icons_agree "new_event"). discriminate.
Defined.

Lemma dashboard_cards_bounded_witness :
  ∃ full, Some ["e1"; "e2"; "e3"; "e4"] = Some full ∧
          ["e1"; "e2"; "e3"] = take 3 full ∧
          1 ≤ length ["e1"; "e2"; "e3"] ≤ 3 ∧
          length ["e1"; "e2"; "e3"] = min 3 (length full).
Proof.
  destruct (dashboard_cards_bounded (Some ["e1"; "e2"; "e3"; "e4"]) (Some 2%Z))
    as (Hcards & _).
  apply (Hcards ["e1"; "e2"; "e3"]). reflexivity.
Defined.

Lemma limit_field_sent_witness :
  body_max_participants (CreateEvent.eventBody Samples.goodForm) = Some 20%Z.
Proof.
  destruct (limit_field_sent Samples.goodForm) as (_ & Hdigits & _).
  apply Hdigits.
  - discriminate.
  - reflexivity.
  - simpl. lia.
Defined.
